(** * Gladly -> Enterpret import pipeline: shallow embedding and properties

    The development follows the JavaScript sources module by module:
    [Js] (the few language primitives the code relies on), [Transformer]
    (transformer.js), [Axios] (the HTTP client both API clients build),
    [EnterpretClient] (enterpret-client.js), [GladlyClient]
    (gladly-client.js), [StateManager] (state-manager.js),
    [GladlyImporter] (the importer) and [Config] (config.js).  Pure methods are Rocq functions;
    methods that throw return an [Outcome]; methods that talk to the
    network or to the state file run in a small state monad over a [World]
    that records every request issued. *)

From Stdlib Require Import ZArith List String Ascii Bool Arith Lia.
From Stdlib Require Import Permutation Sorted.
Import ListNotations.

Local Open Scope list_scope.
Local Open Scope string_scope.

(* ====================================================================== *)
(** * JavaScript primitives used by the sources *)
(* ====================================================================== *)

Module Js.

(** The character U+000A, written [\n] in the sources. *)
Definition nl : string := String (ascii_of_nat 10) EmptyString.

(** A property holding a string, [None] when the property is absent
    ([undefined]).  Truthiness: absent and the empty string are falsy. *)
Definition truthy (o : option string) : bool :=
  match o with
  | Some s => negb (s =? "")
  | None => false
  end.

(** [a || b] on string-valued properties. *)
Definition orElse (a b : option string) : option string :=
  if truthy a then a else b.

(** [a || ''] *)
Definition orEmpty (a : option string) : string :=
  match a with
  | Some s => s
  | None => ""
  end.

(** [${a}] inside a template literal. *)
Definition template (o : option string) : string :=
  match o with
  | Some s => s
  | None => "undefined"
  end.

(** [Array.prototype.join] on an array of strings. *)
Definition join (sep : string) (l : list string) : string :=
  String.concat sep l.

(** [String.prototype.includes] *)
Definition includes (s sub : string) : bool :=
  match String.index 0 sub s with
  | Some _ => true
  | None => false
  end.

(** [String.prototype.toLowerCase], on the ASCII letters. *)
Definition lowerAscii (c : ascii) : ascii :=
  let n := nat_of_ascii c in
  if andb (65 <=? n)%nat (n <=? 90)%nat then ascii_of_nat (n + 32) else c.

Fixpoint toLowerCase (s : string) : string :=
  match s with
  | EmptyString => EmptyString
  | String c r => String (lowerAscii c) (toLowerCase r)
  end.

(** [s.split('/').pop()]: the text after the last slash (the whole string
    when it has none). *)
Fixpoint lastSegment (s : string) : string :=
  match s with
  | EmptyString => EmptyString
  | String c r =>
      if Ascii.eqb c "/" then lastSegment r
      else if includes r "/" then lastSegment r
      else s
  end.

(** ** Exceptions and outcomes *)

Inductive ErrorKind := PlainError | TypeError | RangeError | HttpError.

(** What the code reads of [error.response]: the status and the
    [location] header. *)
Record Response := { status : Z; location : option string }.

Record Exn := mkExn {
  kind : ErrorKind;
  message : string;
  response : option Response     (* set on HTTP errors that carry a response *)
}.

Definition newError (msg : string) : Exn := mkExn PlainError msg None.
Definition typeError (msg : string) : Exn := mkExn TypeError msg None.
Definition rangeError (msg : string) : Exn := mkExn RangeError msg None.

(** Result of running a piece of code: a value, a thrown exception, or
    [OutOfFuel] when the bounded model of an unbounded loop or recursion
    used up its bound (no [catch] intercepts the latter). *)
Inductive Outcome (A : Type) :=
| Ok (a : A)
| Throw (e : Exn)
| OutOfFuel.
Arguments Ok {A} a.
Arguments Throw {A} e.
Arguments OutOfFuel {A}.

Definition obind {A B} (o : Outcome A) (k : A -> Outcome B) : Outcome B :=
  match o with
  | Ok a => k a
  | Throw e => Throw e
  | OutOfFuel => OutOfFuel
  end.

(** ** Dates

    A [Date] object is its time value: milliseconds since the epoch, or
    NaN for an invalid date.  A date string (an item's [timestamp], the
    stored [lastImportTime], a command-line date) is represented by the
    [Date] that [new Date(string)] builds from it. *)

Inductive Date :=
| ValidDate (ms : Z)
| InvalidDate.

Definition isValid (d : Date) : bool :=
  match d with ValidDate _ => true | InvalidDate => false end.

(** [a - b] on dates: a number, [None] standing for NaN. *)
Definition dateDiff (a b : Date) : option Z :=
  match a, b with
  | ValidDate x, ValidDate y => Some (x - y)%Z
  | _, _ => None
  end.

Definition digit (n : Z) : string :=
  String (ascii_of_nat (48 + Z.to_nat (n mod 10))) EmptyString.

(** Decimal rendering of [n >= 0] on exactly [w] digits (low digits kept). *)
Fixpoint pad (w : nat) (n : Z) : string :=
  match w with
  | O => ""
  | S w' => pad w' (n / 10) ++ digit n
  end.

(** Decimal rendering of [n >= 0] without leading zeros. *)
Fixpoint natDigits (fuel : nat) (n : Z) : string :=
  match fuel with
  | O => ""
  | S f => if (n <? 10)%Z then digit n else natDigits f (n / 10) ++ digit n
  end.

(** Calendar date of a day number (days since 1970-01-01), proleptic
    Gregorian calendar. *)
Definition civilFromDays (days : Z) : Z * Z * Z :=
  let z := (days + 719468)%Z in
  let era := (z / 146097)%Z in
  let doe := (z - era * 146097)%Z in
  let yoe := ((doe - doe / 1460 + doe / 36524 - doe / 146096) / 365)%Z in
  let doy := (doe - (365 * yoe + yoe / 4 - yoe / 100))%Z in
  let mp := ((5 * doy + 2) / 153)%Z in
  let d := (doy - (153 * mp + 2) / 5 + 1)%Z in
  let m := (if (mp <? 10)%Z then mp + 3 else mp - 9)%Z in
  let y := (yoe + era * 400 + (if (m <=? 2)%Z then 1 else 0))%Z in
  (y, m, d).

Definition isoYear (y : Z) : string :=
  if andb (0 <=? y)%Z (y <=? 9999)%Z then pad 4 y
  else if (y <? 0)%Z then "-" ++ pad 6 (- y)
  else "+" ++ pad 6 y.

Definition isoOfMs (t : Z) : string :=
  let days := (t / 86400000)%Z in
  let r := (t mod 86400000)%Z in
  let '(y, m, d) := civilFromDays days in
  isoYear y ++ "-" ++ pad 2 m ++ "-" ++ pad 2 d ++ "T"
   ++ pad 2 (r / 3600000) ++ ":" ++ pad 2 (r / 60000 mod 60) ++ ":"
   ++ pad 2 (r / 1000 mod 60) ++ "." ++ pad 3 (r mod 1000) ++ "Z".

(** [Date.prototype.toISOString]: throws a RangeError on an invalid date. *)
Definition toISOString (d : Date) : Outcome string :=
  match d with
  | ValidDate t => Ok (isoOfMs t)
  | InvalidDate => Throw (rangeError "Invalid time value")
  end.

(** Rendering of the number [ms / 1000] (a count of seconds with at most
    three decimals, trailing zeros dropped); NaN renders as "NaN".  The
    decimal expansion is the one JavaScript prints as long as the value
    has at most 15 significant digits, which covers any span between two
    dates of a conversation. *)
Definition fraction (m : Z) : string :=
  if (m =? 0)%Z then ""
  else if (m mod 100 =? 0)%Z then "." ++ pad 1 (m / 100)
  else if (m mod 10 =? 0)%Z then "." ++ pad 2 (m / 10)
  else "." ++ pad 3 m.

Definition secondsToString (ms : option Z) : string :=
  match ms with
  | None => "NaN"
  | Some d =>
      let a := Z.abs d in
      (if (d <? 0)%Z then "-" else "") ++ natDigits 40 (a / 1000) ++ fraction (a mod 1000)
  end.

End Js.

Import Js.

(* ====================================================================== *)
(** * transformer.js *)
(* ====================================================================== *)

Module Transformer.

(** ** Source-side data (the parts of the Gladly JSON the code reads) *)

Record Initiator := { initiator_type : option string }.

Record Content := {
  c_type : option string;
  c_content : option string;
  c_subject : option string;
  c_bodyPlain : option string;
  c_body : option string;
  c_completedAt : option Date;   (* [None]: property absent or falsy *)
  c_answeredAt : option Date;
  c_addedTopicIds : option (list string);
  c_removedTopicIds : option (list string);
  c_status : option string;
  c_title : option string
}.

Record Item := {
  timestamp : Date;              (* [new Date(item.timestamp)] *)
  initiator : option Initiator;
  content : option Content
}.

Record Contact := {
  primary : bool;                (* truthiness of the [primary] flag *)
  normalized : option string;
  original : option string
}.

Record Customer := {
  cust_id : option string;
  cust_name : option string;
  cust_emails : option (list Contact);
  cust_phones : option (list Contact);
  cust_externalCustomerId : option string
}.

Record CustomAttribute := {
  attr_id : option string;
  attr_value : option string     (* [None]: [undefined] *)
}.

Record Conversation := {
  conv_id : option string;
  conv_createdAt : option string;
  conv_status : option string;
  conv_inboxId : option string;
  conv_agentId : option string;
  conv_customerId : option string;
  conv_topicIds : option (list string);
  conv_customAttributes : option (list CustomAttribute)
}.

(** ** Destination-side data.  Optional properties are [None] when the
    code leaves them out. *)

Record Metadata := {
  gladly_conversation_id : option string;
  inboxId : option string
}.

Record Agent := { agent_id : option string }.

Record TransformedCustomer := {
  tc_id : option string;
  tc_name : option string;
  tc_email : option string;
  tc_phone : option string;
  tc_externalId : option string
}.

Record FeedbackRecord := {
  fr_id : option string;
  fr_source : option string;
  fr_channel : option string;
  fr_timestamp : option string;
  fr_status : option string;
  fr_metadata : option Metadata;
  fr_agent : option Agent;
  fr_customer : option TransformedCustomer;
  fr_tags : option (list string);
  fr_content : option string;
  fr_customAttributes : option (list (string * string))
}.

(** ** Objects used as string-keyed maps

    Own string keys of a JavaScript object are enumerated in insertion
    order, so such an object is an association list: writing an existing
    key keeps its place, writing a new key appends it.  (Keys that are
    array indices, such as "7", are enumerated first and in numeric order
    instead.  The keys of [channelCounts] are channel names, never
    indices; for custom attributes with such ids the list below holds the
    right entries, in an order that is not the one of the object.) *)

Fixpoint lookup {V} (k : string) (o : list (string * V)) : option V :=
  match o with
  | [] => None
  | (k', v) :: rest => if k' =? k then Some v else lookup k rest
  end.

Fixpoint assign {V} (k : string) (v : V) (o : list (string * V)) : list (string * V) :=
  match o with
  | [] => [(k, v)]
  | (k', v') :: rest =>
      if k' =? k then (k', v) :: rest else (k', v') :: assign k v rest
  end.

(** ** The constructor's [channelMap] *)

Definition channelMap : list (string * string) :=
  [ ("CHAT_MESSAGE", "chat");
    ("EMAIL", "email");
    ("SMS", "sms");
    ("TWITTER", "social");
    ("FACEBOOK_MESSENGER", "social");
    ("INSTAGRAM_DIRECT", "social");
    ("WHATSAPP", "messaging");
    ("PHONE_CALL", "voice");
    ("VOICEMAIL", "voice");
    ("CUSTOMER_ACTIVITY", "other") ].

(** [channelMap] is an object literal, so a lookup that misses its own
    keys continues in [Object.prototype].  The members found there are
    objects (truthy); used as a key of [channelCounts] they are converted
    to the strings below. *)
Definition nativeFunction (name : string) : string :=
  "function " ++ name ++ "() { [native code] }".

Definition objectPrototype : list (string * string) :=
  [ ("constructor", nativeFunction "Object");
    ("__defineGetter__", nativeFunction "__defineGetter__");
    ("__defineSetter__", nativeFunction "__defineSetter__");
    ("hasOwnProperty", nativeFunction "hasOwnProperty");
    ("__lookupGetter__", nativeFunction "__lookupGetter__");
    ("__lookupSetter__", nativeFunction "__lookupSetter__");
    ("isPrototypeOf", nativeFunction "isPrototypeOf");
    ("propertyIsEnumerable", nativeFunction "propertyIsEnumerable");
    ("toString", nativeFunction "toString");
    ("valueOf", nativeFunction "valueOf");
    ("__proto__", "[object Object]");
    ("toLocaleString", nativeFunction "toLocaleString") ].

(** [this.channelMap[type] || 'other'], as a key of [channelCounts]. *)
Definition channelOf (type : string) : string :=
  match lookup type channelMap with
  | Some channel => channel
  | None =>
      match lookup type objectPrototype with
      | Some inherited => inherited
      | None => "other"
      end
  end.

(** ** [_determinePrimaryChannel] *)

(** The guard [item.content && item.content.type]: the type that is
    counted for an item, if any. *)
Definition countedType (item : Item) : option string :=
  match content item with
  | Some c => if truthy (c_type c) then c_type c else None
  | None => None
  end.

(** One pass of the first loop:
    [channelCounts[channel] = (channelCounts[channel] || 0) + 1]. *)
Definition bump (channel : string) (channelCounts : list (string * nat)) :=
  match lookup channel channelCounts with
  | Some n => assign channel (n + 1) channelCounts
  | None => assign channel 1 channelCounts
  end.

Definition countItem (channelCounts : list (string * nat)) (item : Item) :=
  match countedType item with
  | Some type => bump (channelOf type) channelCounts
  | None => channelCounts
  end.

(** One pass of the second loop over [Object.entries(channelCounts)];
    the state is [(primaryChannel, maxCount)]. *)
Definition pickStep (st : string * nat) (entry : string * nat) : string * nat :=
  let '(primaryChannel, maxCount) := st in
  let '(channel, count) := entry in
  if (maxCount <? count)%nat then (channel, count) else (primaryChannel, maxCount).

Definition _determinePrimaryChannel (items : option (list Item)) : string :=
  match items with
  | None | Some [] => "other"
  | Some items =>
      let channelCounts := fold_left countItem items [] in
      fst (fold_left pickStep channelCounts ("other", 0))
  end.

(** ** [_transformCustomer] *)

(** [list.find(entry => entry.primary) || list[0]] *)
Definition primaryContact (l : list Contact) : option Contact :=
  match find primary l with
  | Some c => Some c
  | None => hd_error l
  end.

(** [entry.normalized || entry.original] *)
Definition contactValue (c : Contact) : option string :=
  orElse (normalized c) (original c).

(** The value written for [email] / [phone]; [None] both when the
    property is not written and when [undefined] is written to it. *)
Definition contactField (l : option (list Contact)) : option string :=
  match l with
  | Some (c :: rest) =>
      match primaryContact (c :: rest) with
      | Some p => contactValue p
      | None => None
      end
  | _ => None
  end.

Definition _transformCustomer (customer : Customer) : TransformedCustomer :=
  {| tc_id := cust_id customer;
     tc_name := if truthy (cust_name customer) then cust_name customer else None;
     tc_email := contactField (cust_emails customer);
     tc_phone := contactField (cust_phones customer);
     tc_externalId :=
       if truthy (cust_externalCustomerId customer)
       then cust_externalCustomerId customer else None |}.

(** ** [_processConversationItems] *)

(** The comparator [new Date(a.timestamp) - new Date(b.timestamp)]. *)
Definition compareItems (a b : Item) : option Z :=
  dateDiff (timestamp a) (timestamp b).

(** [Array.prototype.sort] is stable and moves [a] behind [b] only when
    the comparator is positive (NaN counts as 0).  With a comparator that
    orders the elements consistently, which is the case when every
    timestamp is a valid date, the result is fixed by that; it is
    computed here by insertion.  When a timestamp does not parse the
    comparator is not consistent and the language leaves the order to the
    implementation: the order computed here is then one of the possible
    ones, not necessarily the engine's. *)
Definition comesAfter (a b : Item) : bool :=
  match compareItems a b with
  | Some d => (0 <? d)%Z
  | None => false
  end.

Fixpoint insertItem (x : Item) (sorted : list Item) : list Item :=
  match sorted with
  | [] => [x]
  | y :: rest => if comesAfter x y then y :: insertItem x rest else x :: sorted
  end.

Definition sortItems (items : list Item) : list Item :=
  fold_right insertItem [] items.

Definition typeIs (c : Content) (name : string) : bool :=
  match c_type c with
  | Some t => t =? name
  | None => false
  end.

Definition nonEmptyList (l : option (list string)) : option (list string) :=
  match l with
  | Some (x :: r) => Some (x :: r)
  | _ => None
  end.

(** The [switch (type)]: [Some formattedContent], or [None] for the
    [default: continue]. *)
Definition formatContent (ts initiatorType : string) (c : Content) : option string :=
  if typeIs c "CHAT_MESSAGE" then
    Some ("[" ++ ts ++ "] " ++ initiatorType ++ ": " ++ orEmpty (c_content c))
  else if typeIs c "EMAIL" then
    let subject :=
      if truthy (c_subject c) then "Subject: " ++ orEmpty (c_subject c) ++ nl else "" in
    let bodyContent := orEmpty (orElse (c_bodyPlain c) (c_content c)) in
    Some ("[" ++ ts ++ "] " ++ initiatorType ++ " - EMAIL:" ++ nl ++ subject ++ bodyContent)
  else if typeIs c "SMS" then
    Some ("[" ++ ts ++ "] " ++ initiatorType ++ " - SMS: " ++ orEmpty (c_body c))
  else if typeIs c "PHONE_CALL" then
    let duration :=
      match c_completedAt c, c_answeredAt c with
      | Some completed, Some answered => secondsToString (dateDiff completed answered)
      | _, _ => "unknown"
      end in
    Some ("[" ++ ts ++ "] " ++ initiatorType ++ " - CALL: Duration " ++ duration ++ "s")
  else if typeIs c "CONVERSATION_NOTE" then
    Some ("[" ++ ts ++ "] NOTE: " ++ orEmpty (c_body c))
  else if typeIs c "TOPIC_CHANGE" then
    let formattedContent := "" in
    let formattedContent :=
      match nonEmptyList (c_addedTopicIds c) with
      | Some ids => "[" ++ ts ++ "] TOPICS ADDED: " ++ join ", " ids
      | None => formattedContent
      end in
    let formattedContent :=
      match nonEmptyList (c_removedTopicIds c) with
      | Some ids => "[" ++ ts ++ "] TOPICS REMOVED: " ++ join ", " ids
      | None => formattedContent
      end in
    Some formattedContent
  else if typeIs c "CONVERSATION_STATUS_CHANGE" then
    Some ("[" ++ ts ++ "] STATUS CHANGED TO: " ++ orEmpty (c_status c))
  else if typeIs c "CUSTOMER_ACTIVITY" then
    Some ("[" ++ ts ++ "] ACTIVITY: " ++ orEmpty (c_title c) ++ nl ++ orEmpty (c_body c))
  else None.

(** One iteration of the loop over [sortedItems]: the strings it pushes
    onto [contentParts] (none or one), or the exception it raises. *)
Definition renderItem (item : Item) : Outcome (list string) :=
  match content item with
  | None => Ok []
  | Some c =>
      let initiatorType :=
        match initiator item with
        | Some i => template (initiator_type i)
        | None => "UNKNOWN"
        end in
      obind (toISOString (timestamp item)) (fun ts =>
        match formatContent ts initiatorType c with
        | Some formattedContent =>
            if formattedContent =? "" then Ok [] else Ok [formattedContent]
        | None => Ok []
        end)
  end.

Fixpoint renderItems (sortedItems : list Item) (contentParts : list string)
  : Outcome (list string) :=
  match sortedItems with
  | [] => Ok contentParts
  | item :: rest =>
      obind (renderItem item) (fun pushed => renderItems rest (contentParts ++ pushed)%list)
  end.

Definition _processConversationItems (items : option (list Item)) : Outcome string :=
  match items with
  | None | Some [] => Ok ""
  | Some items =>
      obind (renderItems (sortItems items) [])
            (fun contentParts => Ok (join (nl ++ nl) contentParts))
  end.

(** ** [_transformCustomAttributes] *)

(** One turn of the loop.  [transformed['__proto__'] = value] reaches the
    prototype accessor, which ignores a string: no entry is written. *)
Definition addAttribute (transformed : list (string * string)) (attr : CustomAttribute) :=
  match attr_id attr, attr_value attr with
  | Some id, Some value =>
      if truthy (Some id) then
        if id =? "__proto__" then transformed else assign id value transformed
      else transformed
  | _, _ => transformed
  end.

Definition _transformCustomAttributes (customAttributes : option (list CustomAttribute))
  : list (string * string) :=
  match customAttributes with
  | None => []
  | Some attrs => fold_left addAttribute attrs []
  end.

(** ** [transformConversation] *)

Definition transformConversation
  (conversation : Conversation) (items : option (list Item)) (customer : option Customer)
  : Outcome FeedbackRecord :=
  let primaryChannel := _determinePrimaryChannel items in
  obind (match conv_status conversation with
         | Some s => Ok (toLowerCase s)
         | None =>
             Throw (typeError "Cannot read properties of undefined (reading 'toLowerCase')")
         end) (fun status =>
  obind (_processConversationItems items) (fun content =>
  Ok {| fr_id := Some ("gladly_" ++ template (conv_id conversation));
        fr_source := Some "Gladly";
        fr_channel := Some primaryChannel;
        fr_timestamp := conv_createdAt conversation;
        fr_status := Some status;
        fr_metadata :=
          Some {| gladly_conversation_id := conv_id conversation;
                  inboxId := conv_inboxId conversation |};
        fr_agent :=
          if truthy (conv_agentId conversation)
          then Some {| agent_id := conv_agentId conversation |} else None;
        fr_customer :=
          match customer with
          | Some c => Some (_transformCustomer c)
          | None => None
          end;
        fr_tags := nonEmptyList (conv_topicIds conversation);
        fr_content := Some content;
        fr_customAttributes :=
          match conv_customAttributes conversation with
          | Some (a :: r) => Some (_transformCustomAttributes (Some (a :: r)))
          | _ => None
          end |})).

End Transformer.

Import Transformer.

(* ====================================================================== *)
(** * The outside world: the two HTTP APIs, the state file, the clock *)
(* ====================================================================== *)

Module World.

Record Job := {
  job_id : option string;
  job_status : option string;
  job_parametersType : option string   (* [job.parameters.type], if any *)
}.

Inductive Request :=
| GetOrganization
| GetExportJobs (startAt endAt : string) (offset : Z) (limit : nat)
| GetExportJob (jobId : string)
| GetExportFile (jobId file : string)
| GetConversationItems (conversationId : string)
| GetCustomerProfile (customerId : string)
| GetStatus
| PostFeedback (data : FeedbackRecord)
| PostFeedbackBatch (items : list FeedbackRecord).

(** What [JSON.parse] makes of a line of an export file that parses: the
    value [null], which has no properties, or a value whose properties the
    code can read (for a number, a string or an array each of them is
    [undefined], as in a [Conversation] without any). *)
Inductive Entry :=
| JsonNull
| JsonObject (conversation : Conversation).

(** [response.data], as far as the clients look into it. *)
Inductive Data :=
| NoData                                        (* [null] / [undefined] *)
| Organization (name : option string)
| Jobs (jobs : list Job)
| JobDetails (files : option (list string))
| FileText (lines : list (option Entry))   (* a text body: its non-blank lines;
                                              [None]: a line that is not JSON *)
| Items (items : list Item)
| Profile (customer : Customer)
| Ack.

Inductive HttpResult :=
| Resolved (data : Data)
| Rejected (error : Exn).

Inductive StateFile :=
| Missing
| Unparsable
| Stored (lastImportTime : option Date) (updatedAt : option Date).

Record Metrics := {
  conversationsCount : nat;
  itemsCount : nat;
  customersCount : nat;
  errorsCount : nat;
  startTime : option Date;
  endTime : option Date
}.

(** The mutable part: every request issued so far (oldest first), the
    state file, and the metrics object of the current run. *)
Record World := {
  requests : list Request;
  stateFile : StateFile;
  metrics : Metrics
}.

(** The part the program does not control.  [server] is the outcome of one
    [this.client.get] / [this.client.post] call, the response interceptor
    (replay on 429) and the client's own following of redirects included;
    it may depend on the requests made before.  Any outcome is allowed
    here; the outcomes the HTTP client of the sources can give are those
    of [Axios.client] below. *)
Record Env := {
  server : list Request -> Request -> HttpResult;
  writable : World -> bool;       (* do [fs.mkdir], [fs.writeFile], [fs.unlink] succeed *)
  clock : World -> Z              (* [new Date()] *)
}.

Definition M (A : Type) : Type := Env -> World -> Outcome A * World.

Definition ret {A} (a : A) : M A := fun _ w => (Ok a, w).

Definition bind {A B} (c : M A) (k : A -> M B) : M B :=
  fun env w =>
    match c env w with
    | (Ok a, w') => k a env w'
    | (Throw e, w') => (Throw e, w')
    | (OutOfFuel, w') => (OutOfFuel, w')
    end.

Definition throw {A} (e : Exn) : M A := fun _ w => (Throw e, w).

Definition outOfFuel {A} : M A := fun _ w => (OutOfFuel, w).

Definition lift {A} (o : Outcome A) : M A := fun _ w => (o, w).

(** [try { c } catch (error) { handler }] *)
Definition tryCatch {A} (c : M A) (handler : Exn -> M A) : M A :=
  fun env w =>
    match c env w with
    | (Throw e, w') => handler e env w'
    | r => r
    end.

Definition http (r : Request) : M Data :=
  fun env w =>
    let w' := {| requests := (requests w ++ [r])%list;
                 stateFile := stateFile w;
                 metrics := metrics w |} in
    match server env (requests w) r with
    | Resolved d => (Ok d, w')
    | Rejected e => (Throw e, w')
    end.

Definition now : M Date := fun env w => (Ok (ValidDate (clock env w)), w).

Definition getMetrics : M Metrics := fun _ w => (Ok (metrics w), w).

Definition setMetrics (m : Metrics) : M unit :=
  fun _ w => (Ok tt, {| requests := requests w; stateFile := stateFile w; metrics := m |}).

Definition readStateFile : M StateFile := fun _ w => (Ok (stateFile w), w).

(** A write to the state file: it takes effect when the file system lets
    it, and raises otherwise. *)
Definition writeStateFile (f : StateFile) : M unit :=
  fun env w =>
    if writable env w
    then (Ok tt, {| requests := requests w; stateFile := f; metrics := metrics w |})
    else (Throw (newError "EACCES: permission denied"), w).

End World.

Import World.

Declare Scope monad_scope.
Delimit Scope monad_scope with monad.
Notation "x <- c ;; k" := (bind c (fun x => k))
  (at level 61, c at next level, right associativity) : monad_scope.
Notation "c ;;; k" := (bind c (fun _ => k))
  (at level 61, right associativity) : monad_scope.
Local Open Scope monad_scope.

(** [for (const x of l) { ... }] with a loop-carried value. *)
Fixpoint forEachM {A S} (body : S -> A -> M S) (l : list A) (s : S) : M S :=
  match l with
  | [] => ret s
  | x :: rest => s' <- body s x ;; forEachM body rest s'
  end.

(* ====================================================================== *)
(** * The HTTP client of the two API clients *)
(* ====================================================================== *)

Module Axios.

(** Both clients build their HTTP client with [axios.create] and set no
    [maxRedirects], so the library's default applies: a response with a
    3xx status that carries a [Location] is not handed to the caller; the
    client requests the location instead, up to 21 times for one call,
    and rejects, without a response, when yet another redirect comes.  A
    3xx response without a [Location] is handed over like any other
    failure.  [wire] is what the service answers to one request on the
    wire; [client wire] is then the [server] of an [Env]. *)
Definition maxRedirects : nat := 21.

Inductive WireRequest :=
| Call (r : Request)             (* the request the caller asked for *)
| Follow (target : string).      (* the request of a [Location] *)

(** The location to follow, if the answer is a redirect that has one. *)
Definition redirectOf (answer : HttpResult) : option string :=
  match answer with
  | Rejected e =>
      match response e with
      | Some r =>
          if andb (300 <=? status r)%Z (status r <? 400)%Z then location r else None
      | None => None
      end
  | Resolved _ => None
  end.

Definition tooManyRedirects : Exn :=
  mkExn HttpError "Maximum number of redirects exceeded" None.

(** One call: the answer handed to the caller and the requests made on the
    wire, with [redirects] redirects still allowed. *)
Fixpoint follow (wire : WireRequest -> HttpResult) (redirects : nat) (q : WireRequest)
  : HttpResult * list WireRequest :=
  match redirectOf (wire q) with
  | None => (wire q, [q])
  | Some target =>
      match redirects with
      | O => (Rejected tooManyRedirects, [q])
      | S n =>
          let '(answer, log) := follow wire n (Follow target) in
          (answer, q :: log)
      end
  end.

Definition client (wire : list Request -> WireRequest -> HttpResult)
  (history : list Request) (r : Request) : HttpResult :=
  fst (follow (wire history) maxRedirects (Call r)).

(** The requests one call makes on the wire. *)
Definition wireLog (wire : list Request -> WireRequest -> HttpResult)
  (history : list Request) (r : Request) : list WireRequest :=
  snd (follow (wire history) maxRedirects (Call r)).

End Axios.

Import Axios.

(* ====================================================================== *)
(** * enterpret-client.js *)
(* ====================================================================== *)

Module EnterpretClient.

Definition validateConnection : M bool :=
  tryCatch
    (_ <- http GetStatus ;; ret true)
    (fun error => throw (newError ("Failed to connect to Enterpret API: " ++ message error))).

Definition present {A} (o : option A) : bool :=
  match o with Some _ => true | None => false end.

Definition _validateFeedbackData (data : FeedbackRecord) : Outcome unit :=
  if negb (truthy (fr_id data)) then
    Throw (newError "Feedback data missing required field: id")
  else if negb (truthy (fr_source data)) then
    Throw (newError "Feedback data missing required field: source")
  else if negb (truthy (fr_timestamp data)) then
    Throw (newError "Feedback data missing required field: timestamp")
  else if andb (negb (truthy (fr_content data))) (negb (present (fr_metadata data))) then
    Throw (newError "Feedback data must have either content or metadata")
  else Ok tt.

Definition importFeedback (feedbackData : FeedbackRecord) : M Data :=
  tryCatch
    (lift (_validateFeedbackData feedbackData) ;;;
     response <- http (PostFeedback feedbackData) ;;
     ret response)
    (fun error => throw (newError ("Failed to import feedback: " ++ message error))).

(** [feedbackItems.forEach(item => this._validateFeedbackData(item))] *)
Fixpoint validateEach (feedbackItems : list FeedbackRecord) : Outcome unit :=
  match feedbackItems with
  | [] => Ok tt
  | item :: rest => obind (_validateFeedbackData item) (fun _ => validateEach rest)
  end.

(** [feedbackItems] is [None] when the argument is missing or not an array. *)
Definition importFeedbackBatch (feedbackItems : option (list FeedbackRecord)) : M Data :=
  tryCatch
    (match feedbackItems with
     | None | Some [] => throw (newError "No feedback items provided for batch import")
     | Some items =>
         lift (validateEach items) ;;;
         response <- http (PostFeedbackBatch items) ;;
         ret response
     end)
    (fun error => throw (newError ("Failed to import feedback batch: " ++ message error))).

End EnterpretClient.

(* ====================================================================== *)
(** * gladly-client.js *)
(* ====================================================================== *)

Module GladlyClient.

Definition validateConnection : M bool :=
  tryCatch
    (response <- http GetOrganization ;;
     match response with
     | NoData => throw (typeError "Cannot read properties of undefined (reading 'name')")
     | _ => ret true
     end)
    (fun error => throw (newError ("Failed to connect to Gladly API: " ++ message error))).

Record FetchOptions := {
  opt_startDate : string;
  opt_endDate : string;
  page : nat;
  pageSize : nat
}.

Record Page := { conversations : list Entry; hasMore : bool }.

Definition isConversationsJob (job : Job) : bool :=
  andb (match job_status job with Some s => s =? "COMPLETED" | None => false end)
       (match job_parametersType job with Some t => t =? "CONVERSATIONS" | None => false end).

(** The lines that [JSON.parse] accepts, in order. *)
Definition parsedLines (lines : list (option Entry)) : list Entry :=
  flat_map (fun l => match l with Some c => [c] | None => [] end) lines.

Definition readFile (jobId : string) (conversations : list Entry) (file : string)
  : M (list Entry) :=
  if includes file "conversation" then
    fileData <- http (GetExportFile jobId file) ;;
    match fileData with
    | FileText lines => ret (conversations ++ parsedLines lines)%list
    | _ => throw (typeError "fileData.data.split is not a function")
    end
  else ret conversations.

Definition readJob (conversations : list Entry) (job : Job) : M (list Entry) :=
  if isConversationsJob job then
    jobDetails <- http (GetExportJob (template (job_id job))) ;;
    match jobDetails with
    | JobDetails (Some files) =>
        forEachM (readFile (template (job_id job))) files conversations
    | _ => ret conversations
    end
  else ret conversations.

Definition fetchConversations (options : FetchOptions) : M Page :=
  tryCatch
    (let offset := ((Z.of_nat (page options) - 1) * Z.of_nat (pageSize options))%Z in
     response <- http (GetExportJobs (opt_startDate options) (opt_endDate options)
                                     offset (pageSize options)) ;;
     match response with
     | Jobs jobs =>
         conversations <- forEachM readJob jobs [] ;;
         ret {| conversations := conversations;
                hasMore := (pageSize options <=? List.length conversations)%nat |}
     | _ => ret {| conversations := []; hasMore := false |}
     end)
    (fun error => throw (newError ("Failed to fetch conversations: " ++ message error))).

Definition fetchConversationItems (conversationId : string) : M (list Item) :=
  tryCatch
    (response <- http (GetConversationItems conversationId) ;;
     match response with
     | Items items => ret items
     | _ => ret []
     end)
    (fun error =>
       throw (newError ("Failed to fetch conversation items: " ++ message error))).

Definition isMoved (error : Exn) : option Response :=
  match response error with
  | Some r => if (status r =? 301)%Z then Some r else None
  | None => None
  end.

(** [fetchCustomer] calls itself on every 301 that reaches its [catch]
    with a location; [fuel] bounds the number of requests of one call. *)
Fixpoint fetchCustomer (fuel : nat) (customerId : string) : M (option Customer) :=
  match fuel with
  | O => outOfFuel
  | S fuel' =>
      tryCatch
        (response <- http (GetCustomerProfile customerId) ;;
         match response with
         | Profile customer => ret (Some customer)
         | _ => ret None
         end)
        (fun error =>
           match isMoved error with
           | Some r =>
               match location r with
               | Some loc =>
                   let newId := lastSegment loc in
                   fetchCustomer fuel' newId
               | None =>
                   throw (typeError "Cannot read properties of undefined (reading 'split')")
               end
           | None => throw (newError ("Failed to fetch customer: " ++ message error))
           end)
  end.

End GladlyClient.

(* ====================================================================== *)
(** * state-manager.js *)
(* ====================================================================== *)

Module StateManager.

(** The stored string is returned as the [Date] it denotes. *)
Definition getLastImportTime : M (option Date) :=
  tryCatch
    (data <- readStateFile ;;
     match data with
     | Missing => throw (newError "ENOENT: no such file or directory")
     | Unparsable => throw (newError "Unexpected token in JSON")
     | Stored lastImportTime _ => ret lastImportTime
     end)
    (fun _ => ret None).

Definition updateLastImportTime (timestamp : Date) : M bool :=
  tryCatch
    (isoTimestamp <- lift (toISOString timestamp) ;;
     updatedAt <- now ;;
     writeStateFile (Stored (Some timestamp) (Some updatedAt)) ;;;
     ret true)
    (fun _ => ret false).

Definition resetState : M bool :=
  tryCatch
    (tryCatch
       (data <- readStateFile ;;
        match data with
        | Missing => throw (newError "ENOENT: no such file or directory")
        | _ => writeStateFile Missing
        end)
       (fun _ => ret tt) ;;;
     ret true)
    (fun _ => ret false).

End StateManager.

(* ====================================================================== *)
(** * The importer ([GladlyImporter]) *)
(* ====================================================================== *)

Module GladlyImporter.

(** [this.batchSize = config.batchSize || 100] *)
Definition batchSizeOf (configured : option nat) : nat :=
  match configured with
  | None | Some O => 100
  | Some n => n
  end.

Record Options := {
  isFullImport : bool;
  startDate : option Date;      (* [None]: not given (or empty) *)
  endDate : option Date;
  limit : option nat
}.

Definition modifyMetrics (f : Metrics -> Metrics) : M unit :=
  m <- getMetrics ;; setMetrics (f m).

Definition freshMetrics (start : Date) : Metrics :=
  {| conversationsCount := 0; itemsCount := 0; customersCount := 0;
     errorsCount := 0; startTime := Some start; endTime := None |}.

Definition setConversationsCount (n : nat) (m : Metrics) : Metrics :=
  {| conversationsCount := n; itemsCount := itemsCount m;
     customersCount := customersCount m; errorsCount := errorsCount m;
     startTime := startTime m; endTime := endTime m |}.

Definition addItems (n : nat) (m : Metrics) : Metrics :=
  {| conversationsCount := conversationsCount m; itemsCount := itemsCount m + n;
     customersCount := customersCount m; errorsCount := errorsCount m;
     startTime := startTime m; endTime := endTime m |}.

Definition countCustomer (m : Metrics) : Metrics :=
  {| conversationsCount := conversationsCount m; itemsCount := itemsCount m;
     customersCount := customersCount m + 1; errorsCount := errorsCount m;
     startTime := startTime m; endTime := endTime m |}.

Definition countError (m : Metrics) : Metrics :=
  {| conversationsCount := conversationsCount m; itemsCount := itemsCount m;
     customersCount := customersCount m; errorsCount := errorsCount m + 1;
     startTime := startTime m; endTime := endTime m |}.

Definition setEndTime (t : Date) (m : Metrics) : Metrics :=
  {| conversationsCount := conversationsCount m; itemsCount := itemsCount m;
     customersCount := customersCount m; errorsCount := errorsCount m;
     startTime := startTime m; endTime := Some t |}.

Definition _validateConnections : M unit :=
  tryCatch
    (GladlyClient.validateConnection ;;;
     EnterpretClient.validateConnection ;;;
     ret tt)
    (fun error => throw (newError ("Connection validation failed: " ++ message error))).

(** [new Date('2010-01-01T00:00:00Z')] *)
Definition fullImportEpoch : Date := ValidDate 1262304000000.

(** [defaultDate.setDate(defaultDate.getDate() - 30)], in a time zone
    without clock changes in between. *)
Definition thirtyDaysBefore (d : Date) : Date :=
  match d with
  | ValidDate t => ValidDate (t - 30 * 86400000)
  | InvalidDate => InvalidDate
  end.

Definition _determineStartDate (isFullImport : bool) (userStartDate : option Date) : M Date :=
  match userStartDate with
  | Some d => ret d
  | None =>
      if isFullImport then ret fullImportEpoch
      else
        lastImportTime <- StateManager.getLastImportTime ;;
        match lastImportTime with
        | Some d => ret d
        | None =>
            defaultDate <- now ;;
            let defaultDate := thirtyDaysBefore defaultDate in
            lift (toISOString defaultDate) ;;;    (* the logged notice *)
            ret defaultDate
        end
  end.

Definition limitReached (limit : option nat) (n : nat) : bool :=
  match limit with
  | None | Some O => false
  | Some l => (l <=? n)%nat
  end.

Definition noLimitOrBelow (limit : option nat) (n : nat) : bool :=
  match limit with
  | None | Some O => true
  | Some l => (n <? l)%nat
  end.

(** The [while (hasMore)] loop; [fuel] bounds the number of pages. *)
Fixpoint fetchPages (fuel : nat) (batchSize : nat) (startDate endDate : string)
  (limit : option nat) (allConversations : list Entry) (page : nat)
  : M (list Entry) :=
  match fuel with
  | O => outOfFuel
  | S fuel' =>
      result <- GladlyClient.fetchConversations
                  {| GladlyClient.opt_startDate := startDate;
                     GladlyClient.opt_endDate := endDate;
                     GladlyClient.page := page;
                     GladlyClient.pageSize := batchSize |} ;;
      let allConversations := (allConversations ++ GladlyClient.conversations result)%list in
      let hasMore :=
        andb (GladlyClient.hasMore result)
             (noLimitOrBelow limit (List.length allConversations)) in
      if limitReached limit (List.length allConversations) then
        ret (firstn (match limit with Some l => l | None => 0 end) allConversations)
      else if hasMore then
        fetchPages fuel' batchSize startDate endDate limit allConversations (page + 1)
      else ret allConversations
  end.

Definition _fetchConversations (fuel batchSize : nat) (startDate endDate : Date)
  (limit : option nat) : M (list Entry) :=
  s <- lift (toISOString startDate) ;;
  e <- lift (toISOString endDate) ;;
  fetchPages fuel batchSize s e limit [] 1.

Definition _fetchConversationItems (conversationId : string) : M (list Item) :=
  tryCatch
    (GladlyClient.fetchConversationItems conversationId)
    (fun _ => ret []).

Definition _fetchCustomer (fuel : nat) (customerId : string) : M (option Customer) :=
  tryCatch
    (GladlyClient.fetchCustomer fuel customerId)
    (fun _ => ret None).

(** The body of the loop over the conversations, with its own [try], for
    a conversation whose properties can be read. *)
Definition processConversation (fuel : nat) (conversation : Conversation) : M unit :=
  tryCatch
    (items <- _fetchConversationItems (template (conv_id conversation)) ;;
     modifyMetrics (addItems (List.length items)) ;;;
     customer <- _fetchCustomer fuel (template (conv_customerId conversation)) ;;
     match customer with
     | Some _ => modifyMetrics countCustomer
     | None => ret tt
     end ;;;
     transformedData <- lift (transformConversation conversation (Some items) customer) ;;
     EnterpretClient.importFeedback transformedData ;;;
     ret tt)
    (fun _ => modifyMetrics countError).

(** The body of the loop for any element of the list.  On [null] the
    first [conversation.id] throws inside the [try]; the [catch] counts
    the error and then throws itself, on the [conversation.id] of its log
    line, which ends the loop. *)
Definition processLine (fuel : nat) (line : Entry) : M unit :=
  match line with
  | JsonObject conversation => processConversation fuel conversation
  | JsonNull =>
      modifyMetrics countError ;;;
      throw (typeError "Cannot read properties of null (reading 'id')")
  end.

Definition import (fuel batchSize : nat) (options : Options) : M Metrics :=
  startTime <- now ;;
  setMetrics (freshMetrics startTime) ;;;
  tryCatch
    (_validateConnections ;;;
     importStartDate <- _determineStartDate (isFullImport options) (startDate options) ;;
     importEndDate <- match endDate options with
                      | Some d => ret d
                      | None => now
                      end ;;
     lift (toISOString importStartDate) ;;;       (* the "Starting ... import" line *)
     lift (toISOString importEndDate) ;;;
     conversations <- _fetchConversations fuel batchSize importStartDate importEndDate
                                          (limit options) ;;
     modifyMetrics (setConversationsCount (List.length conversations)) ;;;
     forEachM (fun _ conversation => processLine fuel conversation)
              conversations tt ;;;
     m <- getMetrics ;;
     (if (errorsCount m =? 0)%nat
      then StateManager.updateLastImportTime importEndDate ;;;
           lift (toISOString importEndDate) ;;;
           ret tt
      else ret tt) ;;;
     endTime <- now ;;
     modifyMetrics (setEndTime endTime) ;;;
     getMetrics)
    (fun error => throw error).

End GladlyImporter.


(* ====================================================================== *)
(** * config.js *)
(* ====================================================================== *)

Module Config.

(** A JavaScript number: NaN, an infinity, or a finite value, kept as a
    fraction (the code compares it with 0 and 1 only). *)
Inductive Number :=
| NaN
| Infinity (negative : bool)
| Finite (numerator : Z) (denominator : positive).

(** What is found under a numeric setting.  The environment gives what
    [parseInt] returns, a number; a JSON config file can give any JSON
    value, and the code keeps it as it is.  [isNaN(x)] and [x < n] see a
    value through [Number(x)]; for a string, an array or an object that
    number comes with the value. *)
Inductive Value :=
| Num (n : Number)
| Str (text : string) (n : Number)     (* [n] is [Number(text)] *)
| Null
| Bool (b : bool)
| Obj (n : Number).                    (* an array or an object *)

(** [Number(x)] *)
Definition toNumber (v : Value) : Number :=
  match v with
  | Num n => n
  | Str _ n => n
  | Null => Finite 0 1
  | Bool b => Finite (if b then 1 else 0) 1
  | Obj n => n
  end.

Definition int (z : Z) : Value := Num (Finite z 1).

(** [process.env], the variables the code reads; [None]: unset or empty. *)
Record Environment := {
  GLADLY_API_URL : option string;
  GLADLY_USERNAME : option string;
  GLADLY_API_TOKEN : option string;
  ENTERPRET_API_URL : option string;
  ENTERPRET_API_KEY : option string;
  STATE_FILE_PATH : option string;
  BATCH_SIZE : option Number;    (* [parseInt] of the variable *)
  MAX_RETRIES : option Number;
  RETRY_DELAY : option Number
}.

Record GladlySettings := {
  apiUrl : string;
  username : option string;
  apiToken : option string
}.

Record EnterpretSettings := {
  enterpretApiUrl : string;
  apiKey : option string
}.

Record Settings := {
  gladly : GladlySettings;
  enterpret : EnterpretSettings;
  stateFilePath : string;
  batchSize : Value;
  maxRetries : Value;
  retryDelay : Value
}.

(** The JSON object of a config file; [None]: key not present. *)
Record FileGladly := {
  file_apiUrl : option string;
  file_username : option string;
  file_apiToken : option string
}.

Record FileEnterpret := {
  file_enterpretApiUrl : option string;
  file_apiKey : option string
}.

Record FileConfig := {
  file_gladly : option FileGladly;
  file_enterpret : option FileEnterpret;
  file_stateFilePath : option string;
  file_batchSize : option Value;
  file_maxRetries : option Value;
  file_retryDelay : option Value
}.

(** What is found at the config path. *)
Inductive ConfigFile :=
| NoFile                       (* [fs.access] fails *)
| BadFile                      (* reading or [JSON.parse] fails *)
| Parsed (fileConfig : FileConfig).

Definition orDefault {A} (o : option A) (d : A) : A :=
  match o with
  | Some a => a
  | None => d
  end.

Definition defaultConfig (env : Environment) : Settings :=
  {| gladly :=
       {| apiUrl := orDefault (GLADLY_API_URL env) "https://organization.gladly.com";
          username := GLADLY_USERNAME env;
          apiToken := GLADLY_API_TOKEN env |};
     enterpret :=
       {| enterpretApiUrl := orDefault (ENTERPRET_API_URL env) "https://api.enterpret.com";
          apiKey := ENTERPRET_API_KEY env |};
     stateFilePath := orDefault (STATE_FILE_PATH env) "./import-state.json";
     batchSize := Num (orDefault (BATCH_SIZE env) (Finite 100 1));
     maxRetries := Num (orDefault (MAX_RETRIES env) (Finite 3 1));
     retryDelay := Num (orDefault (RETRY_DELAY env) (Finite 5000 1)) |}.

(** A spread [{...a, ...b}] on one key: the key of [b] when it is present. *)
Definition spread {A} (fromFile : option A) (fromDefault : A) : A :=
  orDefault fromFile fromDefault.

Definition spreadOption {A} (fromFile : option A) (fromDefault : option A) : option A :=
  match fromFile with
  | Some a => Some a
  | None => fromDefault
  end.

Definition mergedConfig (d : Settings) (f : FileConfig) : Settings :=
  {| gladly :=
       match file_gladly f with
       | Some g =>
           {| apiUrl := spread (file_apiUrl g) (apiUrl (gladly d));
              username := spreadOption (file_username g) (username (gladly d));
              apiToken := spreadOption (file_apiToken g) (apiToken (gladly d)) |}
       | None => gladly d
       end;
     enterpret :=
       match file_enterpret f with
       | Some e =>
           {| enterpretApiUrl := spread (file_enterpretApiUrl e)
                                        (enterpretApiUrl (enterpret d));
              apiKey := spreadOption (file_apiKey e) (apiKey (enterpret d)) |}
       | None => enterpret d
       end;
     stateFilePath := spread (file_stateFilePath f) (stateFilePath d);
     batchSize := spread (file_batchSize f) (batchSize d);
     maxRetries := spread (file_maxRetries f) (maxRetries d);
     retryDelay := spread (file_retryDelay f) (retryDelay d) |}.

(** [url.slice(0, -1)] *)
Fixpoint dropLast (s : string) : string :=
  match s with
  | EmptyString => EmptyString
  | String c EmptyString => EmptyString
  | String c r => String c (dropLast r)
  end.

(** [url.endsWith('/')] *)
Fixpoint endsWithSlash (s : string) : bool :=
  match s with
  | EmptyString => false
  | String c EmptyString => Ascii.eqb c "/"
  | String c r => endsWithSlash r
  end.

Definition normalizeUrl (url : string) : string :=
  if url =? "" then url
  else if endsWithSlash url then dropLast url else url.

(** [n < least] on numbers; a comparison with NaN is false. *)
Definition lessThan (n : Number) (least : Z) : bool :=
  match n with
  | NaN => false
  | Infinity negative => negative
  | Finite numerator denominator => (numerator <? least * Z.pos denominator)%Z
  end.

Definition isNaN (v : Value) : bool :=
  match toNumber v with
  | NaN => true
  | _ => false
  end.

(** [isNaN(x) || x < least] *)
Definition below (least : Z) (x : Value) : bool :=
  isNaN x || lessThan (toNumber x) least.

Definition validateConfig (config : Settings) : Outcome Settings :=
  if negb (truthy (username (gladly config))) then
    Throw (newError "Gladly username is required in config or GLADLY_USERNAME env var")
  else if negb (truthy (apiToken (gladly config))) then
    Throw (newError "Gladly API token is required in config or GLADLY_API_TOKEN env var")
  else if negb (truthy (apiKey (enterpret config))) then
    Throw (newError "Enterpret API key is required in config or ENTERPRET_API_KEY env var")
  else
    Ok {| gladly :=
            {| apiUrl := normalizeUrl (apiUrl (gladly config));
               username := username (gladly config);
               apiToken := apiToken (gladly config) |};
          enterpret :=
            {| enterpretApiUrl := normalizeUrl (enterpretApiUrl (enterpret config));
               apiKey := apiKey (enterpret config) |};
          stateFilePath := stateFilePath config;
          batchSize := if below 1 (batchSize config) then int 100 else batchSize config;
          maxRetries := if below 0 (maxRetries config) then int 3 else maxRetries config;
          retryDelay := if below 0 (retryDelay config) then int 5000 else retryDelay config |}.

(** [loadConfig(configPath)]; [configPath] tells whether a path was
    given.  Whatever is thrown inside the [try], a failed validation of
    the merged config included, leads to the fallback on the defaults. *)
Definition loadConfig (env : Environment) (configPath : bool) (file : ConfigFile)
  : Outcome Settings :=
  let defaults := defaultConfig env in
  let attempt : Outcome (option Settings) :=
    if configPath then
      match file with
      | NoFile => obind (validateConfig defaults) (fun c => Ok (Some c))
      | BadFile => Throw (newError "Unexpected token in JSON")
      | Parsed fileConfig =>
          obind (validateConfig (mergedConfig defaults fileConfig)) (fun c => Ok (Some c))
      end
    else Ok None in
  match attempt with
  | Ok (Some config) => Ok config
  | _ => validateConfig defaults
  end.

End Config.

Import EnterpretClient GladlyClient StateManager GladlyImporter Config.

(* ====================================================================== *)
(** * Vocabulary of the properties *)
(* ====================================================================== *)

(** The fixed type-to-channel table; a type it does not list goes to
    [other]. *)
Definition tableChannel (type : string) : string :=
  if type =? "CHAT_MESSAGE" then "chat"
  else if type =? "EMAIL" then "email"
  else if type =? "SMS" then "sms"
  else if type =? "TWITTER" then "social"
  else if type =? "FACEBOOK_MESSENGER" then "social"
  else if type =? "INSTAGRAM_DIRECT" then "social"
  else if type =? "WHATSAPP" then "messaging"
  else if type =? "PHONE_CALL" then "voice"
  else if type =? "VOICEMAIL" then "voice"
  else if type =? "CUSTOMER_ACTIVITY" then "other"
  else "other".

(** The channel under which a content type is counted: the table's,
    except for the twelve names every object inherits ([constructor],
    [toString], ...), which are counted under the text of the inherited
    member. *)
Definition countedChannel (type : string) : string :=
  match lookup type objectPrototype with
  | Some member => member
  | None => tableChannel type
  end.

(** The channels an item list contributes to the count, in item order:
    one per item that has a content with a non-empty type. *)
Definition channels (items : list Item) : list string :=
  flat_map (fun item =>
              match content item with
              | Some c =>
                  match c_type c with
                  | Some type => if type =? "" then [] else [countedChannel type]
                  | None => []
                  end
              | None => []
              end) items.

Definition occurrences (c : string) (l : list string) : nat :=
  count_occ string_dec l c.

Definition seenBefore (c : string) (seen : list string) : bool :=
  existsb (String.eqb c) seen.

(** The distinct channels of a list in the order in which they first
    appear. *)
Definition seenOrder (l : list string) : list string :=
  fold_left (fun seen c => if seenBefore c seen then seen else (seen ++ [c])%list) l [].

(** The object that holds the count [f k] under each key of [keys]. *)
Definition tabulate (f : string -> nat) (keys : list string) : list (string * nat) :=
  map (fun k => (k, f k)) keys.

(** Sample data. *)
Definition textContent (type text : string) : Content :=
  {| c_type := Some type; c_content := Some text; c_subject := None;
     c_bodyPlain := None; c_body := None; c_completedAt := None;
     c_answeredAt := None; c_addedTopicIds := None; c_removedTopicIds := None;
     c_status := None; c_title := None |}.

Definition sampleItem (type : string) (ms : Z) (text : string) : Item :=
  {| timestamp := ValidDate ms;
     initiator := Some {| initiator_type := Some "CUSTOMER" |};
     content := Some (textContent type text) |}.

Definition chat (ms : Z) : Item := sampleItem "CHAT_MESSAGE" ms "hi".
Definition email (ms : Z) : Item := sampleItem "EMAIL" ms "hello".

(** [chosen] is the entry of [l] that is flagged primary and has no
    flagged entry before it, or the first entry when none is flagged. *)
Definition chosenContact (l : list Contact) (chosen : Contact) : Prop :=
  (exists pre post,
      l = (pre ++ chosen :: post)%list /\ primary chosen = true /\
      forall x, In x pre -> primary x = false)
  \/ ((forall x, In x l -> primary x = false) /\ exists rest, l = chosen :: rest).

(** [v] is the normalized form of [c] when there is a non-empty one, and
    the raw original otherwise. *)
Definition preferredValue (c : Contact) (v : option string) : Prop :=
  (forall n, normalized c = Some n -> n <> "" -> v = Some n) /\
  (normalized c = None \/ normalized c = Some "" -> v = original c).

Definition rawContact (flag : bool) (value : string) : Contact :=
  {| primary := flag; normalized := None; original := Some value |}.

Definition sampleCustomer : Customer :=
  {| cust_id := Some "cust-1"; cust_name := Some "Ada";
     cust_emails := Some [rawContact false "a@x.com"; rawContact true "b@x.com"];
     cust_phones := None; cust_externalCustomerId := None |}.

Definition topicChange (ms : Z) (added removed : option (list string)) : Item :=
  {| timestamp := ValidDate ms;
     initiator := None;
     content := Some
       {| c_type := Some "TOPIC_CHANGE"; c_content := None; c_subject := None;
          c_bodyPlain := None; c_body := None; c_completedAt := None;
          c_answeredAt := None; c_addedTopicIds := added;
          c_removedTopicIds := removed; c_status := None; c_title := None |} |}.

(** The ids of a topic list; none when the list is absent. *)
Definition listed (ids : option (list string)) : list string :=
  match ids with
  | Some l => l
  | None => []
  end.

Definition sampleConversation : Conversation :=
  {| conv_id := Some "C1"; conv_createdAt := Some "2024-05-01T10:00:00.000Z";
     conv_status := Some "OPEN"; conv_inboxId := Some "inbox-1";
     conv_agentId := None; conv_customerId := Some "cust-1";
     conv_topicIds := None; conv_customAttributes := None |}.

(** The record has an id, a source, a timestamp, and a content or a
    metadata. *)
Definition acceptable (data : FeedbackRecord) : Prop :=
  truthy (fr_id data) = true /\
  truthy (fr_source data) = true /\
  truthy (fr_timestamp data) = true /\
  (truthy (fr_content data) = true \/ fr_metadata data <> None).

(** The time value of an item that has a valid timestamp. *)
Definition timeOf (item : Item) : Z :=
  match timestamp item with
  | ValidDate t => t
  | InvalidDate => 0
  end.

Definition validTimestamps (items : list Item) : Prop :=
  Forall (fun item => isValid (timestamp item) = true) items.

Definition notLater (a b : Item) : Prop := (timeOf a <= timeOf b)%Z.

Definition atTime (t : Z) (item : Item) : bool := (timeOf item =? t)%Z.

(** The content blocks of a list of items: for each item in turn, the
    block it renders to, if any. *)
Definition blockOf (item : Item) : list string :=
  match renderItem item with
  | Ok pushed => pushed
  | _ => []
  end.

Definition blocks (items : list Item) : list string := flat_map blockOf items.

(** Every item that has a content has a valid timestamp. *)
Definition renderable (items : option (list Item)) : Prop :=
  match items with
  | None => True
  | Some l => Forall (fun item => content item <> None -> isValid (timestamp item) = true) l
  end.

(** ** Worlds and runs *)

(** The world once request [r] has been issued. *)
Definition afterRequest (w : World) (r : Request) : World :=
  {| requests := (requests w ++ [r])%list; stateFile := stateFile w; metrics := metrics w |}.

Definition withMetrics (w : World) (m : Metrics) : World :=
  {| requests := requests w; stateFile := stateFile w; metrics := m |}.

(** The items a response to the items request stands for. *)
Definition itemsOf (r : HttpResult) : list Item :=
  match r with
  | Resolved (Items items) => items
  | _ => []
  end.

(** [c] ends in outcome and world satisfying [Q]. *)
Definition ends {A} (c : M A) (env : Env) (w : World)
  (Q : Outcome A -> World -> Prop) : Prop :=
  Q (fst (c env w)) (snd (c env w)).

(** [c] leaves the part [proj] of the world as it found it. *)
Definition preserves {A F} (proj : World -> F) (c : M A) : Prop :=
  forall env w, proj (snd (c env w)) = proj w.

(** A "moved" rejection pointing to [loc]. *)
Definition moved (loc : string) : Exn :=
  {| kind := HttpError; message := "Request failed with status code 301";
     response := Some {| status := 301; location := Some loc |} |}.

Definition serverError : Exn :=
  {| kind := HttpError; message := "Request failed with status code 500";
     response := Some {| status := 500; location := None |} |}.

Definition profile (id : string) : Customer :=
  {| cust_id := Some id; cust_name := None; cust_emails := None;
     cust_phones := None; cust_externalCustomerId := None |}.

Definition emptyMetrics : Metrics :=
  {| conversationsCount := 0; itemsCount := 0; customersCount := 0;
     errorsCount := 0; startTime := None; endTime := None |}.

Definition initialWorld (f : StateFile) : World :=
  {| requests := []; stateFile := f; metrics := emptyMetrics |}.

(** The answer is a redirect to [target]: a rejection whose response has
    a 3xx status and carries the location [target]. *)
Definition redirectsTo (answer : HttpResult) (target : string) : Prop :=
  exists e r,
    answer = Rejected e /\ response e = Some r /\
    (300 <= status r < 400)%Z /\ location r = Some target.

(** The answer is not a redirect that can be followed. *)
Definition final (answer : HttpResult) : Prop :=
  forall target, ~ redirectsTo answer target.

(** The request [q] is redirected to the first of [targets], that one to
    the next, and so on; the last request of the chain is answered by
    [answer], which is final. *)
Fixpoint redirectChain (wire : WireRequest -> HttpResult) (q : WireRequest)
  (targets : list string) (answer : HttpResult) : Prop :=
  match targets with
  | [] => wire q = answer /\ final answer
  | target :: rest =>
      redirectsTo (wire q) target /\ redirectChain wire (Follow target) rest answer
  end.

(** The same, but the last request of the chain is redirected again. *)
Fixpoint redirectRun (wire : WireRequest -> HttpResult) (q : WireRequest)
  (targets : list string) : Prop :=
  match targets with
  | [] => exists target, redirectsTo (wire q) target
  | target :: rest =>
      redirectsTo (wire q) target /\ redirectRun wire (Follow target) rest
  end.

(** The environment whose HTTP client talks to [wire]. *)
Definition overWire (wire : WireRequest -> HttpResult) : Env :=
  {| server := client (fun _ => wire);
     writable := fun _ => true;
     clock := fun _ => 0%Z |}.

(** A source in which customer C1 was merged into C2 and C2 into C3. *)
Definition mergedTwice (q : WireRequest) : HttpResult :=
  match q with
  | Call (GetCustomerProfile id) =>
      if id =? "C1" then Rejected (moved "/api/v1/customer-profiles/C2")
      else if id =? "C2" then Rejected (moved "/api/v1/customer-profiles/C3")
      else if id =? "C3" then Resolved (Profile (profile "C3"))
      else Rejected serverError
  | Follow target =>
      if target =? "/api/v1/customer-profiles/C2"
      then Rejected (moved "/api/v1/customer-profiles/C3")
      else if target =? "/api/v1/customer-profiles/C3"
      then Resolved (Profile (profile "C3"))
      else Rejected serverError
  | _ => Resolved NoData
  end.

(** A source in which C1 was merged into C2 and C2 back into C1. *)
Definition mergeCycle (q : WireRequest) : HttpResult :=
  match q with
  | Call (GetCustomerProfile id) =>
      if id =? "C2" then Rejected (moved "/api/v1/customer-profiles/C1")
      else Rejected (moved "/api/v1/customer-profiles/C2")
  | Follow target =>
      if target =? "/api/v1/customer-profiles/C2"
      then Rejected (moved "/api/v1/customer-profiles/C1")
      else Rejected (moved "/api/v1/customer-profiles/C2")
  | _ => Resolved NoData
  end.

(** A source that answers a profile request with a 301 that has no
    location. *)
Definition movedNowhere (q : WireRequest) : HttpResult :=
  match q with
  | Call (GetCustomerProfile _) =>
      Rejected {| kind := HttpError; message := "Request failed with status code 301";
                  response := Some {| status := 301; location := None |} |}
  | _ => Resolved NoData
  end.

(** A source without conversations; every call succeeds; the clock shows
    [t]. *)
Definition quietSource (t : Z) : Env :=
  {| server := fun _ r =>
       match r with
       | GetOrganization => Resolved (Organization (Some "acme"))
       | GetExportJobs _ _ _ _ => Resolved (Jobs [])
       | _ => Resolved Ack
       end;
     writable := fun _ => true;
     clock := fun _ => t |}.

(** One conversation [C1] whose items call fails and whose customer is
    unknown. *)
Definition itemsDown : Env :=
  {| server := fun _ r =>
       match r with
       | GetConversationItems _ => Rejected serverError
       | GetCustomerProfile _ => Rejected serverError
       | _ => Resolved Ack
       end;
     writable := fun _ => true;
     clock := fun _ => 0%Z |}.

(** The customer a response to the customer request stands for. *)
Definition profileOf (d : Data) : option Customer :=
  match d with
  | Profile customer => Some customer
  | _ => None
  end.

Definition lastImportTimeOf (f : StateFile) : option Date :=
  match f with
  | Stored t _ => t
  | _ => None
  end.

(** The world in which a run started from [w] resolves its dates: the
    metrics are those of a run that has just started, at the time the
    clock showed in [w], and the two pre-flight calls have been made. *)
Definition afterPreflight (env : Env) (w : World) : World :=
  {| requests := (requests w ++ [GetOrganization; GetStatus])%list;
     stateFile := stateFile w;
     metrics :=
       {| conversationsCount := 0; itemsCount := 0; customersCount := 0;
          errorsCount := 0; startTime := Some (ValidDate (clock env w));
          endTime := None |} |}.

(** [d] is the end date a run started from [w] with these options resolves
    to: the given end date, or else the time the clock shows once the two
    pre-flight calls have been made; and it is a valid date. *)
Definition resolvedEndDate (env : Env) (w : World) (options : Options) (d : Date) : Prop :=
  isValid d = true /\
  d = match endDate options with
      | Some given => given
      | None => ValidDate (clock env (afterPreflight env w))
      end.

(** What a run started from [w] leaves in the state file. *)
Definition runLeaves (env : Env) (w : World) (options : Options)
  (out : Outcome Metrics) (w' : World) : Prop :=
  match out with
  | Ok m =>
      (errorsCount m <> 0 -> stateFile w' = stateFile w) /\
      (errorsCount m = 0 ->
       exists d,
         resolvedEndDate env w options d /\
         (stateFile w' = stateFile w \/
          exists t, stateFile w' = Stored (Some d) (Some t)) /\
         ((forall x, writable env x = true) ->
          exists t, stateFile w' = Stored (Some d) (Some t)))
  | _ => stateFile w' = stateFile w
  end.


(** A re-import of an old window: the end date is given and lies before
    the stored import time. *)
Definition oldWindow : Options :=
  {| isFullImport := false;
     startDate := Some (ValidDate 0);
     endDate := Some (ValidDate 1000);
     limit := None |}.

(** ** Further vocabulary *)

(** Both pre-flight calls succeed when issued from [w]. *)
Definition gladlyAnswers (env : Env) (w : World) : bool :=
  match server env (requests w) GetOrganization with
  | Resolved NoData => false
  | Resolved _ => true
  | Rejected _ => false
  end.

Definition enterpretAnswers (env : Env) (w : World) : bool :=
  match server env (requests w ++ [GetOrganization])%list GetStatus with
  | Resolved _ => true
  | Rejected _ => false
  end.

(** An incremental run without explicit dates. *)
Definition incremental : Options :=
  {| isFullImport := false; startDate := None; endDate := None; limit := None |}.


(** A run whose end date does not parse. *)
Definition badEndDate : Options :=
  {| isFullImport := false;
     startDate := Some (ValidDate 0);
     endDate := Some InvalidDate;
     limit := None |}.

Definition conversationsJob : Job :=
  {| job_id := Some "job-1"; job_status := Some "COMPLETED";
     job_parametersType := Some "CONVERSATIONS" |}.

(** A source whose listing answers every page with the same export file,
    which holds the same conversation on each of its two lines. *)
Definition samePageSource : Env :=
  {| server := fun _ r =>
       match r with
       | GetOrganization => Resolved (Organization (Some "acme"))
       | GetExportJobs _ _ _ _ => Resolved (Jobs [conversationsJob])
       | GetExportJob _ => Resolved (JobDetails (Some ["conversations.jsonl"]))
       | GetExportFile _ _ =>
           Resolved (FileText [Some (JsonObject sampleConversation);
                               Some (JsonObject sampleConversation)])
       | GetConversationItems _ => Resolved (Items [])
       | GetCustomerProfile _ => Rejected serverError
       | _ => Resolved Ack
       end;
     writable := fun _ => true;
     clock := fun _ => 0%Z |}.

(** What the body of one pass may do to the metrics before its [catch]:
    it adds the items, may count one customer, and counts no error. *)
Definition bodyEffect (before after : Metrics) : Prop :=
  conversationsCount after = conversationsCount before /\
  errorsCount after = errorsCount before /\
  customersCount before <= customersCount after <= customersCount before + 1 /\
  itemsCount before <= itemsCount after /\
  startTime after = startTime before.

(** What one pass may do to the metrics: as the body, and at most one
    error more. *)
Definition passEffect (before after : Metrics) : Prop :=
  conversationsCount after = conversationsCount before /\
  errorsCount before <= errorsCount after <= errorsCount before + 1 /\
  customersCount before <= customersCount after <= customersCount before + 1 /\
  itemsCount before <= itemsCount after /\
  startTime after = startTime before.

(** What [k] passes may do. *)
Definition loopEffect (k : nat) (before after : Metrics) : Prop :=
  conversationsCount after = conversationsCount before /\
  errorsCount after <= errorsCount before + k /\
  customersCount after <= customersCount before + k /\
  startTime after = startTime before.

(** A source whose one export file holds a line [null] between two
    conversations. *)
Definition nullLineSource : Env :=
  {| server := fun _ r =>
       match r with
       | GetOrganization => Resolved (Organization (Some "acme"))
       | GetExportJobs _ _ _ _ => Resolved (Jobs [conversationsJob])
       | GetExportJob _ => Resolved (JobDetails (Some ["conversations.jsonl"]))
       | GetExportFile _ _ =>
           Resolved (FileText [Some (JsonObject sampleConversation); Some JsonNull;
                               Some (JsonObject sampleConversation)])
       | GetConversationItems _ => Resolved (Items [])
       | GetCustomerProfile _ => Rejected serverError
       | _ => Resolved Ack
       end;
     writable := fun _ => true;
     clock := fun _ => 0%Z |}.

Definition firstTwo : Options :=
  {| isFullImport := true; startDate := None; endDate := Some (ValidDate 1000);
     limit := Some 2 |}.

(** [c] only appends to the request log, and every request it appends
    satisfies [P]. *)
Definition issuesOnly {A} (P : Request -> Prop) (c : M A) : Prop :=
  forall env w,
    exists new, requests (snd (c env w)) = (requests w ++ new)%list /\ Forall P new.

(** The requests a run may make: no batch post, and single posts only of
    records that pass the local validation. *)
Definition deliverable (r : Request) : Prop :=
  match r with
  | PostFeedback data => acceptable data
  | PostFeedbackBatch _ => False
  | _ => True
  end.

(** The requests that may follow the listing of the export jobs: job
    details, and files whose name contains "conversation". *)
Definition exportFollowUp (r : Request) : Prop :=
  match r with
  | GetExportJob _ => True
  | GetExportFile _ file => includes file "conversation" = true
  | _ => False
  end.


(** The entry a custom attribute contributes: its id and value, when the
    id is truthy and the value defined. *)
Definition keptAttribute (attr : CustomAttribute) : option (string * string) :=
  match attr_id attr, attr_value attr with
  | Some id, Some value => if id =? "" then None else Some (id, value)
  | _, _ => None
  end.

(** The value of the last attribute of the list that contributes an entry
    for [k]. *)
Fixpoint lastKept (k : string) (attrs : list CustomAttribute) : option string :=
  match attrs with
  | [] => None
  | a :: rest =>
      match lastKept k rest with
      | Some v => Some v
      | None =>
          match keptAttribute a with
          | Some (id, v) => if id =? k then Some v else None
          | None => None
          end
      end
  end.

(** An item that has a content but a timestamp that does not parse. *)
Definition unrenderable (item : Item) : Prop :=
  content item <> None /\ timestamp item = InvalidDate.

(** The item renders a block. *)
Definition speaks (item : Item) : bool :=
  match blockOf item with
  | [] => false
  | _ => true
  end.

Definition attribute (id value : string) : CustomAttribute :=
  {| attr_id := Some id; attr_value := Some value |}.

Definition silentItem (ms : Z) : Item :=
  {| timestamp := ValidDate ms; initiator := None; content := None |}.

(** Environment and config file used as samples. *)
Definition sampleEnvironment : Environment :=
  {| GLADLY_API_URL := Some "https://acme.gladly.com/";
     GLADLY_USERNAME := Some "ops@acme.com";
     GLADLY_API_TOKEN := Some "token";
     ENTERPRET_API_URL := None;
     ENTERPRET_API_KEY := Some "key";
     STATE_FILE_PATH := None;
     BATCH_SIZE := Some (Finite 0 1);
     MAX_RETRIES := None;
     RETRY_DELAY := Some NaN |}.

Definition sampleFile : FileConfig :=
  {| file_gladly :=
       Some {| file_apiUrl := None; file_username := Some "import@acme.com";
               file_apiToken := None |};
     file_enterpret := None;
     file_stateFilePath := None;
     file_batchSize := Some (int 50);
     file_maxRetries := None;
     file_retryDelay := None |}.

(** A file that sets the username to the empty string. *)
Definition blankingFile : FileConfig :=
  {| file_gladly :=
       Some {| file_apiUrl := None; file_username := Some ""; file_apiToken := None |};
     file_enterpret := None;
     file_stateFilePath := None;
     file_batchSize := Some (int 50);
     file_maxRetries := None;
     file_retryDelay := None |}.

(** A file that sets every key, the numeric ones to a string, a fraction
    and [null]. *)
Definition fullFile : FileConfig :=
  {| file_gladly :=
       Some {| file_apiUrl := Some "https://eu.gladly.com//";
               file_username := Some "import@acme.com";
               file_apiToken := Some "file-token" |};
     file_enterpret :=
       Some {| file_enterpretApiUrl := Some "https://enterpret.test";
               file_apiKey := Some "file-key" |};
     file_stateFilePath := Some "/var/state.json";
     file_batchSize := Some (Str "50" (Finite 50 1));
     file_maxRetries := Some (Num (Finite 3 2));
     file_retryDelay := Some Null |}.






(** The three credentials [validateConfig] asks for are all present. *)
Definition credentialsComplete (config : Settings) : bool :=
  truthy (username (gladly config)) && truthy (apiToken (gladly config))
  && truthy (apiKey (enterpret config)).

(** What [loadConfig] finds at the config path gives no usable config. *)
Definition unusable (env : Environment) (configPath : bool) (file : ConfigFile) : Prop :=
  configPath = false \/ file = NoFile \/ file = BadFile \/
  exists f e, file = Parsed f /\
              validateConfig (mergedConfig (defaultConfig env) f) = Throw e.

(** Two worlds that differ at most in the state file. *)
Definition sameButState (w1 w2 : World) : Prop :=
  requests w1 = requests w2 /\ metrics w1 = metrics w2.

(** The clock and the file system do not look at the state file. *)
Definition stateBlind (env : Env) : Prop :=
  forall w1 w2, sameButState w1 w2 ->
    clock env w1 = clock env w2 /\ writable env w1 = writable env w2.

(** The computation does not read the state file: from two worlds that
    differ only there it gives the same outcome, the same requests and
    the same metrics. *)
Definition ignoresState {A} (c : M A) : Prop :=
  forall env w1 w2,
    stateBlind env -> sameButState w1 w2 ->
    fst (c env w1) = fst (c env w2) /\
    sameButState (snd (c env w1)) (snd (c env w2)).

(** A run that does not rely on the state for its start date. *)
Definition startGiven (options : Options) : Prop :=
  startDate options <> None \/ isFullImport options = true.

(* ====================================================================== *)
(** * Properties *)
(* ====================================================================== *)

Local Open Scope list_scope.

(** ** Channel inference *)

Section ChannelCounting.

Lemma seenBefore_In c seen : seenBefore c seen = true <-> In c seen.
Proof.
  unfold seenBefore. rewrite existsb_exists. split.
  - intros (x & Hin & Heq). apply String.eqb_eq in Heq. now subst.
  - intros Hin. exists c. split; [assumption | apply String.eqb_refl].
Qed.

Lemma seenOrder_snoc l c :
  seenOrder (l ++ [c]) =
  if seenBefore c (seenOrder l) then seenOrder l else seenOrder l ++ [c].
Proof. unfold seenOrder. now rewrite fold_left_app. Qed.

Lemma seenOrder_In l : forall c, In c (seenOrder l) <-> In c l.
Proof.
  induction l as [| a l IH] using rev_ind; intros c.
  - reflexivity.
  - rewrite seenOrder_snoc, in_app_iff.
    destruct (seenBefore a (seenOrder l)) eqn:E.
    + rewrite IH. apply seenBefore_In in E. apply IH in E.
      simpl. intuition (subst; auto).
    + rewrite in_app_iff, IH. reflexivity.
Qed.

Lemma seenOrder_NoDup l : NoDup (seenOrder l).
Proof.
  induction l as [| a l IH] using rev_ind.
  - constructor.
  - rewrite seenOrder_snoc.
    destruct (seenBefore a (seenOrder l)) eqn:E; [assumption |].
    apply NoDup_app; [assumption | repeat constructor; auto | ].
    intros x Hx [<- | []].
    apply seenBefore_In in Hx. congruence.
Qed.

Lemma occurrences_snoc k l c :
  occurrences k (l ++ [c]) = occurrences k l + (if k =? c then 1 else 0).
Proof.
  unfold occurrences. rewrite count_occ_app. simpl.
  destruct (string_dec c k) as [-> | Hne].
  - now rewrite String.eqb_refl.
  - destruct (String.eqb_spec k c); [congruence | reflexivity].
Qed.

Lemma occurrences_pos k l : In k l <-> 0 < occurrences k l.
Proof. unfold occurrences. apply count_occ_In. Qed.

Variable g : string -> nat.

Lemma lookup_tabulate c keys :
  lookup c (tabulate g keys) = if seenBefore c keys then Some (g c) else None.
Proof.
  induction keys as [| a keys IH]; [reflexivity |].
  unfold seenBefore in *. simpl.
  destruct (String.eqb_spec a c) as [-> | Hne].
  - now rewrite String.eqb_refl.
  - destruct (String.eqb_spec c a); [congruence |]. simpl. exact IH.
Qed.

Lemma assign_absent c v keys :
  ~ In c keys -> assign c v (tabulate g keys) = tabulate g keys ++ [(c, v)].
Proof.
  induction keys as [| a keys IH]; intros Hnot; [reflexivity |].
  simpl. destruct (String.eqb_spec a c) as [-> | Hne].
  - exfalso. apply Hnot. now left.
  - f_equal. apply IH. intros H. apply Hnot. now right.
Qed.

Lemma assign_present c keys (g' : string -> nat) :
  NoDup keys -> In c keys -> (forall k, k <> c -> g' k = g k) ->
  assign c (g' c) (tabulate g keys) = tabulate g' keys.
Proof.
  intros Hnd Hin Hext.
  induction keys as [| a keys IH]; [contradiction |].
  inversion Hnd as [| ? ? Hnotin Hnd']; subst.
  simpl. destruct (String.eqb_spec a c) as [-> | Hne].
  - f_equal. apply map_ext_in. intros k Hk.
    rewrite Hext; [reflexivity |]. intros ->. contradiction.
  - rewrite (Hext a Hne). f_equal. apply IH; [assumption |].
    destruct Hin as [-> | Hin]; [congruence | assumption].
Qed.

End ChannelCounting.


(** The lookup of the code (own keys of [channelMap], then the prototype,
    then ['other']) gives the channel of the table. *)
Lemma channelOf_counted type : channelOf type = countedChannel type.
Proof.
  unfold channelOf, countedChannel, tableChannel, channelMap. cbn [lookup].
  repeat match goal with
         | |- context [?k =? type] =>
             destruct (String.eqb_spec k type) as [<- | Hne];
             [reflexivity
             | rewrite (proj2 (String.eqb_neq type k)) by (intros ->; now apply Hne);
               clear Hne]
         end.
  destruct (lookup type objectPrototype); reflexivity.
Qed.

Lemma countItems_channels items acc :
  fold_left countItem items acc = fold_left (fun a c => bump c a) (channels items) acc.
Proof.
  revert acc. induction items as [| item items IH]; intros acc; [reflexivity |].
  simpl. unfold channels in *. simpl. rewrite fold_left_app, IH.
  unfold countItem, countedType, truthy.
  destruct (content item) as [c |]; [| reflexivity].
  destruct (c_type c) as [type |]; [| reflexivity].
  destruct (type =? ""); [reflexivity |].
  simpl. now rewrite channelOf_counted.
Qed.

Lemma channelCounts_tabulate chans :
  fold_left (fun a c => bump c a) chans [] =
  tabulate (fun k => occurrences k chans) (seenOrder chans).
Proof.
  induction chans as [| c chans IH] using rev_ind; [reflexivity |].
  rewrite fold_left_app, IH. simpl. unfold bump.
  rewrite lookup_tabulate, seenOrder_snoc.
  destruct (seenBefore c (seenOrder chans)) eqn:E.
  - apply seenBefore_In in E.
    replace (occurrences c chans + 1) with (occurrences c (chans ++ [c]))
      by (rewrite occurrences_snoc, String.eqb_refl; reflexivity).
    apply (assign_present (fun k => occurrences k chans) c (seenOrder chans)
             (fun k => occurrences k (chans ++ [c])));
      [apply seenOrder_NoDup | assumption |].
    intros k Hk. rewrite occurrences_snoc.
    destruct (String.eqb_spec k c); [congruence | lia].
  - assert (Hnot : ~ In c (seenOrder chans)).
    { intros H. apply seenBefore_In in H. congruence. }
    rewrite assign_absent by assumption.
    unfold tabulate. rewrite map_app. simpl. f_equal.
    + apply map_ext_in. intros k Hk. rewrite occurrences_snoc.
      destruct (String.eqb_spec k c); [subst; contradiction | f_equal; lia].
    + rewrite occurrences_snoc, String.eqb_refl.
      assert (occurrences c chans = 0); [| now replace (occurrences c chans) with 0].
      destruct (occurrences c chans) eqn:Ec; [reflexivity |].
      exfalso. apply Hnot, seenOrder_In, occurrences_pos. lia.
Qed.

Lemma pick_first_max entries : forall p m0,
  let '(r, m) := fold_left pickStep entries (p, m0) in
  ((r, m) = (p, m0) /\ Forall (fun e => snd e <= m0) entries) \/
  (exists E1 E2, entries = E1 ++ (r, m) :: E2 /\ m0 < m /\
                 Forall (fun e => snd e < m) E1 /\ Forall (fun e => snd e <= m) E2).
Proof.
  induction entries as [| [k n] entries IH]; intros p m0.
  - simpl. left. split; [reflexivity | constructor].
  - simpl. destruct (Nat.ltb_spec m0 n) as [Hlt | Hge].
    + specialize (IH k n).
      destruct (fold_left pickStep entries (k, n)) as [r m].
      destruct IH as [[Heq Hall] | (E1 & E2 & -> & Hm & H1 & H2)].
      * inversion Heq; subst. right. exists [], entries. repeat split; auto.
      * right. exists ((k, n) :: E1), E2.
        repeat split; try assumption; try reflexivity; try lia.
        all: constructor; [simpl; lia | assumption].
    + specialize (IH p m0).
      destruct (fold_left pickStep entries (p, m0)) as [r m].
      destruct IH as [[Heq Hall] | (E1 & E2 & -> & Hm & H1 & H2)].
      * left. split; [assumption |]. constructor; [simpl; lia | assumption].
      * right. exists ((k, n) :: E1), E2.
        repeat split; try assumption; try reflexivity; try lia.
        all: constructor; [simpl; lia | assumption].
Qed.


(** ** Customer mapping *)

Lemma find_first_flagged (l : list Contact) chosen :
  find primary l = Some chosen ->
  exists pre post, l = pre ++ chosen :: post /\ primary chosen = true /\
                   forall x, In x pre -> primary x = false.
Proof.
  induction l as [| a l IH]; [discriminate |].
  simpl. destruct (primary a) eqn:Ea.
  - intros [= <-]. exists [], l. repeat split; [assumption | intros x []].
  - intros Hf. destruct (IH Hf) as (pre & post & -> & Hp & Hpre).
    exists (a :: pre), post. repeat split; [assumption |].
    intros x [<- | Hx]; auto.
Qed.

Lemma find_none_flagged (l : list Contact) :
  find primary l = None -> forall x, In x l -> primary x = false.
Proof.
  intros Hf x Hx. pose proof (find_none _ _ Hf x Hx) as H. exact H.
Qed.

Lemma contactValue_preferred c : preferredValue c (contactValue c).
Proof.
  unfold preferredValue, contactValue, orElse. split.
  - intros n Hn Hne. rewrite Hn. simpl.
    destruct (String.eqb_spec n ""); [contradiction | reflexivity].
  - intros [-> | ->]; reflexivity.
Qed.

Lemma contactField_chosen l :
  l <> [] ->
  exists chosen, chosenContact l chosen /\ preferredValue chosen (contactField (Some l)).
Proof.
  intros Hne. destruct l as [| c rest]; [now elim Hne |].
  unfold contactField, primaryContact.
  destruct (find primary (c :: rest)) as [p |] eqn:Ef.
  - exists p. split; [left; now apply find_first_flagged | apply contactValue_preferred].
  - exists c. split; [| apply contactValue_preferred].
    right. split; [now apply find_none_flagged | now exists rest].
Qed.

(** C3.  For a profile with a non-empty [emails] list the transformed
    customer's email is taken from the first entry flagged primary, or
    from the first entry when no entry is flagged; the value taken is the
    entry's normalized form when it has a non-empty one and its raw
    original otherwise.  The same holds for [phones] and the phone.  With
    the entries (not primary, a@x.com), (primary, b@x.com) the email is
    b@x.com. *)
Theorem transformCustomer_primary_contact :
  forall customer : Customer,
    (forall emails, cust_emails customer = Some emails -> emails <> [] ->
       exists chosen,
         chosenContact emails chosen /\
         preferredValue chosen (tc_email (_transformCustomer customer))) /\
    (forall phones, cust_phones customer = Some phones -> phones <> [] ->
       exists chosen,
         chosenContact phones chosen /\
         preferredValue chosen (tc_phone (_transformCustomer customer))) /\
    tc_email (_transformCustomer sampleCustomer) = Some "b@x.com".
Proof.
  intros customer. split; [| split; [| reflexivity]].
  - intros emails He Hne. simpl. rewrite He. now apply contactField_chosen.
  - intros phones Hp Hne. simpl. rewrite Hp. now apply contactField_chosen.
Qed.

(** ** Rendering of one item *)

Lemma renderItem_valid item c t :
  content item = Some c -> timestamp item = ValidDate t ->
  renderItem item =
  match formatContent (isoOfMs t)
          (match initiator item with
           | Some i => template (initiator_type i)
           | None => "UNKNOWN"
           end) c with
  | Some formattedContent => if formattedContent =? "" then Ok [] else Ok [formattedContent]
  | None => Ok []
  end.
Proof. intros Hc Ht. unfold renderItem. rewrite Hc, Ht. reflexivity. Qed.

Lemma processSingle item :
  _processConversationItems (Some [item]) =
  obind (renderItem item) (fun pushed => Ok (join (nl ++ nl) pushed)).
Proof.
  unfold _processConversationItems, sortItems. simpl.
  destruct (renderItem item); reflexivity.
Qed.

(** C6.  A topic-change item with a valid timestamp whose content has both
    a non-empty [addedTopicIds] and a non-empty [removedTopicIds] renders
    as the single line [[ts] TOPICS REMOVED: ids]; with only one of the
    two lists non-empty (the other absent or empty) it renders as that
    list's line; with neither it renders nothing.  The ids are joined with
    a comma and a space. *)
Theorem topicChange_single_slot :
  forall (item : Item) (c : Content) (t : Z),
    content item = Some c ->
    c_type c = Some "TOPIC_CHANGE" ->
    timestamp item = ValidDate t ->
    let added := listed (c_addedTopicIds c) in
    let removed := listed (c_removedTopicIds c) in
    let removedLine : string :=
      ("[" ++ isoOfMs t ++ "] TOPICS REMOVED: " ++ join ", " removed)%string in
    let addedLine : string :=
      ("[" ++ isoOfMs t ++ "] TOPICS ADDED: " ++ join ", " added)%string in
    (added <> [] -> removed <> [] ->
       renderItem item = Ok [removedLine] /\
       _processConversationItems (Some [item]) = Ok removedLine) /\
    (added = [] -> removed <> [] ->
       renderItem item = Ok [removedLine] /\
       _processConversationItems (Some [item]) = Ok removedLine) /\
    (added <> [] -> removed = [] ->
       renderItem item = Ok [addedLine] /\
       _processConversationItems (Some [item]) = Ok addedLine) /\
    (added = [] -> removed = [] ->
       renderItem item = Ok [] /\
       _processConversationItems (Some [item]) = Ok ""%string).
Proof.
  intros item c t Hc Hty Ht added removed removedLine addedLine.
  assert (Hr : renderItem item =
               match removed, added with
               | _ :: _, _ => Ok [removedLine]
               | [], _ :: _ => Ok [addedLine]
               | [], [] => Ok []
               end).
  { rewrite (renderItem_valid item c t Hc Ht).
    unfold formatContent, typeIs. rewrite Hty. simpl.
    subst removedLine addedLine added removed. unfold listed, nonEmptyList.
    destruct (c_removedTopicIds c) as [[| r rs] |];
      destruct (c_addedTopicIds c) as [[| a al] |]; reflexivity. }
  rewrite processSingle, Hr.
  destruct removed as [| r rs]; destruct added as [| a al];
    repeat split; intros; try congruence; reflexivity.
Qed.

Lemma topicChange_single_slot_witness :
  renderItem (topicChange 0 (Some ["t1"; "t2"]) (Some ["t3"; "t4"]))
  = Ok ["[1970-01-01T00:00:00.000Z] TOPICS REMOVED: t3, t4"] /\
  renderItem (topicChange 0 (Some ["t1"]) (Some []))
  = Ok ["[1970-01-01T00:00:00.000Z] TOPICS ADDED: t1"] /\
  renderItem (topicChange 0 (Some []) (Some ["t3"]))
  = Ok ["[1970-01-01T00:00:00.000Z] TOPICS REMOVED: t3"].
Proof.
  split; [| split].
  - refine (proj1 (proj1 (topicChange_single_slot
                            (topicChange 0 (Some ["t1"; "t2"]) (Some ["t3"; "t4"]))
                            _ 0 eq_refl eq_refl eq_refl) _ _)); discriminate.
  - refine (proj1 (proj1 (proj2 (proj2 (topicChange_single_slot
                            (topicChange 0 (Some ["t1"]) (Some []))
                            _ 0 eq_refl eq_refl eq_refl))) _ _));
      [discriminate | reflexivity].
  - refine (proj1 (proj1 (proj2 (topicChange_single_slot
                            (topicChange 0 (Some []) (Some ["t3"]))
                            _ 0 eq_refl eq_refl eq_refl)) _ _));
      [reflexivity | discriminate].
Defined.

(** ** Conversations without items *)

Lemma transformConversation_empty conversation customer status items :
  conv_status conversation = Some status ->
  items = None \/ items = Some [] ->
  exists record,
    transformConversation conversation items customer = Ok record /\
    fr_channel record = Some "other" /\
    fr_content record = Some "".
Proof.
  intros Hs [-> | ->];
    unfold transformConversation; rewrite Hs; simpl;
    eexists; repeat split; reflexivity.
Qed.

(** C8.  For a conversation (one that has a status) with an empty or
    absent item list, [transformConversation] returns a record whose
    channel is [other] and whose content is the empty string. *)
Theorem transformConversation_no_items :
  forall (conversation : Conversation) (customer : option Customer)
         (status : string) (items : option (list Item)),
    conv_status conversation = Some status ->
    items = None \/ items = Some [] ->
    exists record,
      transformConversation conversation items customer = Ok record /\
      fr_channel record = Some "other" /\
      fr_content record = Some "".
Proof.
  intros conversation customer status items. apply transformConversation_empty.
Qed.

Lemma transformConversation_no_items_witness :
  exists record,
    transformConversation sampleConversation (Some []) None = Ok record /\
    fr_channel record = Some "other" /\
    fr_content record = Some "".
Proof.
  exact (transformConversation_no_items sampleConversation None "OPEN" (Some [])
           eq_refl (or_intror eq_refl)).
Defined.

(** ** Local validation in the destination client *)

Lemma validate_acceptable data :
  _validateFeedbackData data = Ok tt <-> acceptable data.
Proof.
  unfold _validateFeedbackData, acceptable, EnterpretClient.present.
  destruct (truthy (fr_id data)), (truthy (fr_source data)),
    (truthy (fr_timestamp data)), (truthy (fr_content data)),
    (fr_metadata data); simpl; split; intros H;
    try discriminate; try reflexivity;
    try (repeat split; auto; try (right; discriminate); fail);
    try (destruct H as (H1 & H2 & H3 & [H4 | H4]); congruence).
Qed.

Lemma validate_cases data :
  _validateFeedbackData data = Ok tt \/ exists e, _validateFeedbackData data = Throw e.
Proof.
  unfold _validateFeedbackData.
  repeat match goal with |- context [if ?b then _ else _] => destruct b end; eauto.
Qed.

Lemma validateEach_ok l :
  validateEach l = Ok tt <-> Forall (fun d => _validateFeedbackData d = Ok tt) l.
Proof.
  induction l as [| d l IH]; simpl.
  - split; auto.
  - destruct (validate_cases d) as [Hok | [e He]].
    + rewrite Hok. simpl. rewrite IH. split.
      * intros H. now constructor.
      * intros H. now inversion H.
    + rewrite He. simpl. split; [discriminate |].
      intros H. inversion H. congruence.
Qed.

Lemma validateEach_cases l :
  validateEach l = Ok tt \/ exists e, validateEach l = Throw e.
Proof.
  induction l as [| d l IH]; simpl; [now left |].
  destruct (validate_cases d) as [-> | [e ->]]; simpl; eauto.
Qed.

Lemma importFeedback_rejected data e env w :
  _validateFeedbackData data = Throw e ->
  importFeedback data env w =
  (Throw (newError ("Failed to import feedback: " ++ message e)), w).
Proof.
  intros H. unfold importFeedback, tryCatch, bind, lift. rewrite H. reflexivity.
Qed.

Lemma importFeedback_sends data env w :
  _validateFeedbackData data = Ok tt ->
  requests (snd (importFeedback data env w)) = requests w ++ [PostFeedback data] /\
  stateFile (snd (importFeedback data env w)) = stateFile w /\
  metrics (snd (importFeedback data env w)) = metrics w /\
  (forall d, server env (requests w) (PostFeedback data) = Resolved d ->
             fst (importFeedback data env w) = Ok d) /\
  (forall e, server env (requests w) (PostFeedback data) = Rejected e ->
             exists e', fst (importFeedback data env w) = Throw e').
Proof.
  intros H. unfold importFeedback, tryCatch, bind, lift, http, ret, throw. rewrite H.
  destruct (server env (requests w) (PostFeedback data)); simpl;
    repeat split; try reflexivity; intros; try discriminate; eauto; congruence.
Qed.

(** C9.  [importFeedback] validates the record before any request: the
    record passes exactly when it has an id, a source, a timestamp and a
    content or a metadata; when it does not pass, [importFeedback] raises
    an error and no request is issued; when it passes, exactly the POST of
    that record is issued.  [importFeedbackBatch] raises an error without
    any request for a missing or empty list and for a list with an element
    that does not pass; when every element passes, exactly the POST of the
    batch is issued. *)
Theorem importFeedback_validates_before_sending :
  forall (env : Env) (w : World),
    (forall data, _validateFeedbackData data = Ok tt <-> acceptable data) /\
    (forall data, ~ acceptable data ->
       exists e, importFeedback data env w = (Throw e, w)) /\
    (forall data, acceptable data ->
       requests (snd (importFeedback data env w)) = requests w ++ [PostFeedback data]) /\
    (forall feedbackItems, feedbackItems = None \/ feedbackItems = Some [] ->
       exists e, importFeedbackBatch feedbackItems env w = (Throw e, w)) /\
    (forall l bad, In bad l -> ~ acceptable bad ->
       exists e, importFeedbackBatch (Some l) env w = (Throw e, w)) /\
    (forall l, l <> [] -> Forall acceptable l ->
       requests (snd (importFeedbackBatch (Some l) env w))
       = requests w ++ [PostFeedbackBatch l]).
Proof.
  intros env w. split; [exact validate_acceptable |].
  split; [| split; [| split; [| split]]].
  - intros data Hbad.
    destruct (validate_cases data) as [Hok | [e He]].
    + elim Hbad. now apply validate_acceptable.
    + eexists. exact (importFeedback_rejected data e env w He).
  - intros data Hok. apply validate_acceptable in Hok.
    now apply importFeedback_sends.
  - intros feedbackItems [-> | ->]; eexists; reflexivity.
  - intros l bad Hin Hbad.
    destruct l as [| d l']; [contradiction |].
    destruct (validateEach_cases (d :: l')) as [Hok | [e He]].
    + exfalso. apply Hbad. apply validate_acceptable.
      rewrite validateEach_ok, Forall_forall in Hok. now apply Hok.
    + eexists. unfold importFeedbackBatch, tryCatch, bind, lift.
      rewrite He. reflexivity.
  - intros l Hne Hall.
    destruct l as [| d l']; [now elim Hne |].
    assert (Hok : validateEach (d :: l') = Ok tt).
    { apply validateEach_ok. rewrite Forall_forall in *.
      intros x Hx. apply validate_acceptable. now apply Hall. }
    unfold importFeedbackBatch, tryCatch, bind, lift, http, ret, throw.
    rewrite Hok.
    destruct (server env (requests w) (PostFeedbackBatch (d :: l'))); reflexivity.
Qed.

(** ** Content assembly *)

Lemma comesAfter_valid a b :
  isValid (timestamp a) = true -> isValid (timestamp b) = true ->
  comesAfter a b = (timeOf b <? timeOf a)%Z.
Proof.
  unfold comesAfter, compareItems, timeOf.
  destruct (timestamp a) as [x |], (timestamp b) as [y |]; try discriminate.
  intros _ _. simpl.
  destruct (Z.ltb_spec 0 (x - y)), (Z.ltb_spec y x); auto; lia.
Qed.

Lemma insertItem_perm x l : Permutation (insertItem x l) (x :: l).
Proof.
  induction l as [| y l IH]; simpl; [reflexivity |].
  destruct (comesAfter x y); [| reflexivity].
  rewrite IH. apply perm_swap.
Qed.

Lemma sortItems_perm l : Permutation (sortItems l) l.
Proof.
  induction l as [| x l IH]; simpl; [reflexivity |].
  rewrite insertItem_perm. now constructor.
Qed.

Lemma validTimestamps_sort l : validTimestamps l -> validTimestamps (sortItems l).
Proof.
  unfold validTimestamps. apply Permutation_Forall. symmetry. apply sortItems_perm.
Qed.

Lemma insertItem_sorted x l :
  isValid (timestamp x) = true -> validTimestamps l ->
  StronglySorted notLater l -> StronglySorted notLater (insertItem x l).
Proof.
  intros Hx Hl Hs. induction Hs as [| y l Hs IH Hy]; simpl.
  - repeat constructor.
  - inversion Hl as [| ? ? Hvy Hvl]; subst.
    rewrite (comesAfter_valid x y Hx Hvy).
    destruct (Z.ltb_spec (timeOf y) (timeOf x)) as [Hlt | Hge].
    + constructor; [now apply IH |].
      apply (Permutation_Forall (x := x :: l)); [symmetry; apply insertItem_perm |].
      constructor; [unfold notLater; lia | assumption].
    + constructor; [now constructor |].
      constructor; [exact Hge |].
      rewrite Forall_forall in *. intros z Hz. specialize (Hy z Hz).
      unfold notLater in *. lia.
Qed.

Lemma sortItems_sorted l :
  validTimestamps l -> StronglySorted notLater (sortItems l).
Proof.
  induction l as [| x l IH]; intros Hv; simpl; [constructor |].
  inversion Hv; subst.
  apply insertItem_sorted; [assumption | now apply validTimestamps_sort | now apply IH].
Qed.

Lemma insertItem_stable t x l :
  isValid (timestamp x) = true -> validTimestamps l ->
  filter (atTime t) (insertItem x l) = filter (atTime t) (x :: l).
Proof.
  intros Hx Hl. induction l as [| y l IH]; [reflexivity |].
  inversion Hl as [| ? ? Hvy Hvl]; subst.
  simpl. rewrite (comesAfter_valid x y Hx Hvy).
  destruct (Z.ltb_spec (timeOf y) (timeOf x)) as [Hlt | Hge]; [| reflexivity].
  simpl. rewrite (IH Hvl). simpl. unfold atTime.
  destruct (Z.eqb_spec (timeOf x) t), (Z.eqb_spec (timeOf y) t); try reflexivity; lia.
Qed.

Lemma sortItems_stable t l :
  validTimestamps l -> filter (atTime t) (sortItems l) = filter (atTime t) l.
Proof.
  induction l as [| x l IH]; intros Hv; [reflexivity |].
  inversion Hv; subst. simpl sortItems.
  rewrite insertItem_stable; [| assumption | now apply validTimestamps_sort].
  simpl. rewrite IH by assumption. reflexivity.
Qed.

Lemma renderItem_returns item :
  (content item <> None -> isValid (timestamp item) = true) ->
  renderItem item = Ok (blockOf item).
Proof.
  intros Hv. unfold blockOf, renderItem in *.
  destruct (content item) as [c |]; [| reflexivity].
  destruct (timestamp item) as [t |]; [| now specialize (Hv ltac:(discriminate))].
  simpl. destruct (formatContent _ _ c) as [f |]; [| reflexivity].
  destruct (f =? ""); reflexivity.
Qed.

Lemma renderItems_blocks l : forall contentParts,
  renderable (Some l) ->
  renderItems l contentParts = Ok (contentParts ++ blocks l).
Proof.
  induction l as [| item l IH]; intros parts Hv; simpl.
  - now rewrite app_nil_r.
  - inversion Hv; subst. rewrite renderItem_returns by assumption. simpl.
    rewrite IH by assumption. now rewrite app_assoc.
Qed.

Lemma validTimestamps_renderable l : validTimestamps l -> renderable (Some l).
Proof.
  unfold validTimestamps, renderable. apply Forall_impl. auto.
Qed.

Lemma renderable_sort l : renderable (Some l) -> renderable (Some (sortItems l)).
Proof.
  unfold renderable. apply Permutation_Forall. symmetry. apply sortItems_perm.
Qed.

Lemma processConversationItems_blocks l :
  renderable (Some l) ->
  _processConversationItems (Some l) = Ok (join (nl ++ nl) (blocks (sortItems l))).
Proof.
  intros Hv. unfold _processConversationItems.
  destruct l as [| x l']; [reflexivity |].
  rewrite renderItems_blocks by now apply renderable_sort.
  reflexivity.
Qed.

Lemma same_time_same_item (l : list Item) x y :
  NoDup (map timeOf l) -> In x l -> In y l -> timeOf x = timeOf y -> x = y.
Proof.
  induction l as [| a l IH]; [contradiction |].
  simpl. intros Hnd Hx Hy Heq. inversion Hnd as [| ? ? Hnot Hnd']; subst.
  destruct Hx as [-> | Hx], Hy as [-> | Hy]; auto.
  - elim Hnot. rewrite Heq. now apply in_map.
  - elim Hnot. rewrite <- Heq. now apply in_map.
Qed.

Lemma sorted_unique (l1 : list Item) : forall l2,
  NoDup (map timeOf l1) -> Permutation l1 l2 ->
  StronglySorted notLater l1 -> StronglySorted notLater l2 -> l1 = l2.
Proof.
  induction l1 as [| a l1 IH]; intros l2 Hnd Hp Hs1 Hs2.
  - now apply Permutation_nil in Hp.
  - destruct l2 as [| b l2];
      [apply Permutation_sym, Permutation_nil in Hp; discriminate |].
    inversion Hs1 as [| ? ? Hs1' Ha]; subst.
    inversion Hs2 as [| ? ? Hs2' Hb]; subst.
    rewrite Forall_forall in Ha, Hb.
    assert (Hab : a = b).
    { assert (Hain : In a (b :: l2)) by (eapply Permutation_in; [exact Hp | now left]).
      assert (Hbin : In b (a :: l1))
        by (eapply Permutation_in; [symmetry; exact Hp | now left]).
      apply (same_time_same_item (a :: l1)); [assumption | now left | assumption |].
      assert (Hba : notLater b a)
        by (destruct Hain as [<- | Hin]; [unfold notLater; lia | auto]).
      assert (Hab : notLater a b)
        by (destruct Hbin as [<- | Hin]; [unfold notLater; lia | auto]).
      unfold notLater in *. lia. }
    subst b. f_equal. apply IH; auto.
    + now inversion Hnd.
    + now apply Permutation_cons_inv in Hp.
Qed.

Lemma sortItems_order_independent l l' :
  validTimestamps l -> NoDup (map timeOf l) -> Permutation l l' ->
  sortItems l' = sortItems l.
Proof.
  intros Hv Hnd Hp.
  assert (Hv' : validTimestamps l') by (eapply Permutation_Forall; eassumption).
  symmetry. apply sorted_unique.
  - eapply Permutation_NoDup; [| exact Hnd].
    apply Permutation_map. symmetry. apply sortItems_perm.
  - rewrite sortItems_perm, Hp. symmetry. apply sortItems_perm.
  - now apply sortItems_sorted.
  - now apply sortItems_sorted.
Qed.

(** C7.  For an item list in which every timestamp is a valid date, the
    content is the rendered blocks of the items taken in ascending order
    of their own timestamps, joined by a blank line: the order used is a
    permutation of the input, sorted by timestamp, and stable (items with
    equal timestamps keep their input order).  When the timestamps are
    pairwise distinct the content does not depend on the input order.  Two
    chat items given as T2 then T1 render with the T1 line first. *)
Theorem processConversationItems_chronological :
  forall items : list Item,
    validTimestamps items ->
    (exists sortedItems,
        Permutation sortedItems items /\
        StronglySorted notLater sortedItems /\
        (forall t, filter (atTime t) sortedItems = filter (atTime t) items) /\
        _processConversationItems (Some items)
        = Ok (join (nl ++ nl) (blocks sortedItems))) /\
    (forall items', Permutation items items' -> NoDup (map timeOf items) ->
        _processConversationItems (Some items') = _processConversationItems (Some items)) /\
    _processConversationItems (Some [chat 2000; chat 1000])
    = Ok ("[1970-01-01T00:00:01.000Z] CUSTOMER: hi" ++ nl ++ nl ++
          "[1970-01-01T00:00:02.000Z] CUSTOMER: hi")%string.
Proof.
  intros items Hv. split; [| split; [| reflexivity]].
  - exists (sortItems items). repeat split.
    + apply sortItems_perm.
    + now apply sortItems_sorted.
    + intros t. now apply sortItems_stable.
    + apply processConversationItems_blocks. now apply validTimestamps_renderable.
  - intros items' Hp Hnd.
    assert (Hv' : validTimestamps items') by (eapply Permutation_Forall; eassumption).
    rewrite !processConversationItems_blocks by now apply validTimestamps_renderable.
    now rewrite (sortItems_order_independent items items').
Qed.

Lemma processConversationItems_chronological_witness :
  exists sortedItems,
    Permutation sortedItems [chat 2000; email 1000] /\
    StronglySorted notLater sortedItems /\
    (forall t, filter (atTime t) sortedItems = filter (atTime t) [chat 2000; email 1000]) /\
    _processConversationItems (Some [chat 2000; email 1000])
    = Ok (join (nl ++ nl) (blocks sortedItems)).
Proof.
  apply (processConversationItems_chronological [chat 2000; email 1000]).
  repeat constructor.
Defined.

(** An item with a content and an unparseable timestamp makes the whole
    rendering throw, whatever its type. *)
Example processConversationItems_invalid_timestamp :
  _processConversationItems
    (Some [ {| timestamp := InvalidDate; initiator := None;
               content := Some (textContent "CHAT_MESSAGE" "hi") |} ])
  = Throw (rangeError "Invalid time value").
Proof. reflexivity. Qed.

(** The tie-break follows the order of first appearance, not the order in
    which the running counts reach the maximum. *)
Example determinePrimaryChannel_tie_first_appearance :
  _determinePrimaryChannel (Some [email 1; chat 2; chat 3; email 4]) = "email".
Proof. reflexivity. Qed.

(** ** Transformed records and the destination's validation *)

Lemma processConversationItems_returns items :
  renderable items -> exists content, _processConversationItems items = Ok content.
Proof.
  destruct items as [l |]; intros Hv.
  - rewrite processConversationItems_blocks by assumption. eauto.
  - simpl. eauto.
Qed.

Lemma transformConversation_returns conversation items customer status :
  conv_status conversation = Some status -> renderable items ->
  exists record, transformConversation conversation items customer = Ok record.
Proof.
  intros Hs Hv. unfold transformConversation. rewrite Hs.
  destruct (processConversationItems_returns items Hv) as [content ->].
  simpl. eauto.
Qed.

Lemma transformConversation_fields conversation items customer record :
  transformConversation conversation items customer = Ok record ->
  fr_id record = Some ("gladly_" ++ template (conv_id conversation))%string /\
  fr_source record = Some "Gladly" /\
  fr_timestamp record = conv_createdAt conversation /\
  fr_metadata record =
    Some {| gladly_conversation_id := conv_id conversation;
            inboxId := conv_inboxId conversation |} /\
  fr_customer record = option_map _transformCustomer customer /\
  (exists content, _processConversationItems items = Ok content /\
                   fr_content record = Some content).
Proof.
  unfold transformConversation.
  destruct (conv_status conversation); [| discriminate].
  destruct (_processConversationItems items) as [content | |]; try discriminate.
  simpl. intros [= Hrec]. subst record. simpl.
  do 4 (split; [reflexivity |]).
  split; [destruct customer; reflexivity | eauto].
Qed.

(** C10.  For a conversation that has a [createdAt], every record that
    [transformConversation] returns has the id [gladly_<id>], the source
    [Gladly], the conversation's [createdAt] as timestamp and a metadata
    object with the conversation id and the inbox id; it passes
    [_validateFeedbackData], whatever its content, so [importFeedback]
    issues its POST.  A record is returned whenever the conversation has a
    status and every item with a content has a valid timestamp. *)
Theorem transformed_record_passes_validation :
  forall (conversation : Conversation) (items : option (list Item))
         (customer : option Customer),
    truthy (conv_createdAt conversation) = true ->
    (forall record,
        transformConversation conversation items customer = Ok record ->
        fr_id record = Some ("gladly_" ++ template (conv_id conversation))%string /\
        fr_source record = Some "Gladly" /\
        fr_timestamp record = conv_createdAt conversation /\
        fr_metadata record =
          Some {| gladly_conversation_id := conv_id conversation;
                  inboxId := conv_inboxId conversation |} /\
        _validateFeedbackData record = Ok tt /\
        (forall env w,
            requests (snd (importFeedback record env w))
            = requests w ++ [PostFeedback record])) /\
    (forall status,
        conv_status conversation = Some status -> renderable items ->
        exists record, transformConversation conversation items customer = Ok record).
Proof.
  intros conversation items customer Hcreated. split.
  - intros record Hrec.
    destruct (transformConversation_fields _ _ _ _ Hrec)
      as (Hid & Hsrc & Hts & Hmeta & _ & _).
    assert (Hvalid : _validateFeedbackData record = Ok tt).
    { apply validate_acceptable. unfold acceptable.
      rewrite Hid, Hsrc, Hts, Hmeta, Hcreated. repeat split; try reflexivity.
      right. discriminate. }
    repeat split; try assumption.
    intros env w. now apply importFeedback_sends.
  - intros status Hs Hv. now apply (transformConversation_returns _ _ _ status).
Qed.

Lemma transformed_record_passes_validation_witness :
  exists record,
    transformConversation sampleConversation (Some []) None = Ok record /\
    fr_content record = Some "" /\
    _validateFeedbackData record = Ok tt.
Proof.
  destruct (transformed_record_passes_validation sampleConversation (Some []) None eq_refl)
    as [Hall _].
  eexists. split; [reflexivity |]. split; [reflexivity |].
  exact (proj1 (proj2 (proj2 (proj2 (proj2 (Hall _ eq_refl)))))).
Defined.

(** ** Reasoning about runs *)

Lemma ends_bind {A B} (c : M A) (k : A -> M B) env w Q :
  ends c env w (fun o w1 =>
                  match o with
                  | Ok a => ends (k a) env w1 Q
                  | Throw e => Q (Throw e) w1
                  | OutOfFuel => Q OutOfFuel w1
                  end) ->
  ends (bind c k) env w Q.
Proof.
  unfold ends, bind. destruct (c env w) as [[a | e |] w1]; simpl; auto.
Qed.

Lemma ends_tryCatch {A} (c : M A) (h : Exn -> M A) env w Q :
  ends c env w (fun o w1 =>
                  match o with
                  | Throw e => ends (h e) env w1 Q
                  | _ => Q o w1
                  end) ->
  ends (tryCatch c h) env w Q.
Proof.
  unfold ends, tryCatch. destruct (c env w) as [[a | e |] w1]; simpl; auto.
Qed.

Lemma ends_preserves {A F} (proj : World -> F) (c : M A) env w
  (Q : Outcome A -> World -> Prop) :
  preserves proj c ->
  (forall o w1, proj w1 = proj w -> Q o w1) ->
  ends c env w Q.
Proof. intros Hk HQ. apply HQ, Hk. Qed.

Section Frame.

Context {F : Type} (proj : World -> F).

Lemma preserves_ret {A} (a : A) : preserves proj (ret a).
Proof. intros env w. reflexivity. Qed.

Lemma preserves_throw {A} e : preserves proj (@throw A e).
Proof. intros env w. reflexivity. Qed.

Lemma preserves_outOfFuel {A} : preserves proj (@outOfFuel A).
Proof. intros env w. reflexivity. Qed.

Lemma preserves_lift {A} (o : Outcome A) : preserves proj (lift o).
Proof. intros env w. reflexivity. Qed.

Lemma preserves_now : preserves proj now.
Proof. intros env w. reflexivity. Qed.

Lemma preserves_getMetrics : preserves proj getMetrics.
Proof. intros env w. reflexivity. Qed.

Lemma preserves_readStateFile : preserves proj readStateFile.
Proof. intros env w. reflexivity. Qed.

Lemma preserves_bind {A B} (c : M A) (k : A -> M B) :
  preserves proj c -> (forall a, preserves proj (k a)) -> preserves proj (bind c k).
Proof.
  intros Hc Hk env w. unfold bind. specialize (Hc env w).
  destruct (c env w) as [[a | e |] w1]; simpl in *; auto.
  rewrite Hk. exact Hc.
Qed.

Lemma preserves_tryCatch {A} (c : M A) (h : Exn -> M A) :
  preserves proj c -> (forall e, preserves proj (h e)) -> preserves proj (tryCatch c h).
Proof.
  intros Hc Hh env w. unfold tryCatch. specialize (Hc env w).
  destruct (c env w) as [[a | e |] w1]; simpl in *; auto.
  rewrite Hh. exact Hc.
Qed.

Lemma preserves_forEachM {A S} (body : S -> A -> M S) l :
  (forall s x, preserves proj (body s x)) -> forall s, preserves proj (forEachM body l s).
Proof.
  intros Hb. induction l as [| x l IH]; intros s; simpl.
  - apply preserves_ret.
  - apply preserves_bind; auto.
Qed.

End Frame.

Lemma http_stateFile r : preserves stateFile (http r).
Proof. intros env w. unfold http. destruct (server env (requests w) r); reflexivity. Qed.

Lemma http_metrics r : preserves metrics (http r).
Proof. intros env w. unfold http. destruct (server env (requests w) r); reflexivity. Qed.

Lemma setMetrics_stateFile m : preserves stateFile (setMetrics m).
Proof. intros env w. reflexivity. Qed.

Lemma setMetrics_requests m : preserves requests (setMetrics m).
Proof. intros env w. reflexivity. Qed.

Lemma writeStateFile_metrics f : preserves metrics (writeStateFile f).
Proof. intros env w. unfold writeStateFile. destruct (writable env w); reflexivity. Qed.

(** Decomposes a computation along its binds, handlers and branches. *)
Ltac keeps :=
  repeat first
    [ apply preserves_ret | apply preserves_throw | apply preserves_outOfFuel
    | apply preserves_lift | apply preserves_now | apply preserves_getMetrics
    | apply preserves_readStateFile
    | apply http_stateFile | apply http_metrics
    | apply setMetrics_stateFile | apply setMetrics_requests
    | apply writeStateFile_metrics
    | assumption
    | apply preserves_bind; [| intros ?]
    | apply preserves_tryCatch; [| intros ?]
    | apply preserves_forEachM; intros ? ?
    | match goal with
      | |- preserves _ (match ?x with _ => _ end) => destruct x
      end ].

Lemma modifyMetrics_stateFile f : preserves stateFile (modifyMetrics f).
Proof. unfold modifyMetrics. keeps. Qed.

Lemma importFeedback_stateFile data : preserves stateFile (importFeedback data).
Proof. unfold importFeedback. keeps. Qed.

Lemma importFeedback_metrics data : preserves metrics (importFeedback data).
Proof. unfold importFeedback. keeps. Qed.

Lemma fetchConversationItems_stateFile id : preserves stateFile (fetchConversationItems id).
Proof. unfold fetchConversationItems. keeps. Qed.

Lemma fetchCustomer_preserves {F} (proj : World -> F) fuel :
  (forall r, preserves proj (http r)) ->
  forall id, preserves proj (fetchCustomer fuel id).
Proof.
  intros Hhttp.
  induction fuel as [| fuel IH]; intros id; simpl; [apply preserves_outOfFuel |].
  apply preserves_tryCatch.
  - apply preserves_bind; [apply Hhttp | intros d; destruct d; apply preserves_ret].
  - intros e. destruct (isMoved e) as [r |]; [| apply preserves_throw].
    destruct (location r); [apply IH | apply preserves_throw].
Qed.

Lemma fetchConversations_stateFile options : preserves stateFile (fetchConversations options).
Proof. unfold fetchConversations, readJob, readFile. keeps. Qed.

Lemma validateConnections_stateFile : preserves stateFile _validateConnections.
Proof.
  unfold _validateConnections, GladlyClient.validateConnection,
    EnterpretClient.validateConnection. keeps.
Qed.

Lemma getLastImportTime_stateFile : preserves stateFile getLastImportTime.
Proof. unfold getLastImportTime. keeps. Qed.

Lemma determineStartDate_stateFile full user :
  preserves stateFile (_determineStartDate full user).
Proof.
  unfold _determineStartDate. keeps; apply getLastImportTime_stateFile.
Qed.

Lemma fetchPages_stateFile fuel batchSize s e limit :
  forall all page, preserves stateFile (fetchPages fuel batchSize s e limit all page).
Proof.
  induction fuel as [| fuel IH]; intros all page; simpl; [apply preserves_outOfFuel |].
  apply preserves_bind; [apply fetchConversations_stateFile | intros result].
  destruct (limitReached _ _); [apply preserves_ret |].
  destruct (andb _ _); [apply IH | apply preserves_ret].
Qed.

Lemma fetchConversations_all_stateFile fuel batchSize s e limit :
  preserves stateFile (_fetchConversations fuel batchSize s e limit).
Proof.
  unfold _fetchConversations. keeps. apply fetchPages_stateFile.
Qed.

Lemma processConversation_stateFile fuel conversation :
  preserves stateFile (processConversation fuel conversation).
Proof.
  unfold processConversation, _fetchConversationItems, _fetchCustomer.
  keeps; first [ apply fetchConversationItems_stateFile | apply modifyMetrics_stateFile
               | apply (fetchCustomer_preserves stateFile); exact http_stateFile
               | apply importFeedback_stateFile ].
Qed.

Lemma processLine_stateFile fuel line : preserves stateFile (processLine fuel line).
Proof.
  destruct line; cbn [processLine]; [| apply processConversation_stateFile].
  apply preserves_bind; [apply modifyMetrics_stateFile | intros; apply preserves_throw].
Qed.

(** ** Enrichment failures *)

Lemma fetchConversationItems_client_run id env w :
  fetchConversationItems id env w =
  match server env (requests w) (GetConversationItems id) with
  | Resolved d =>
      (Ok (itemsOf (Resolved d)), afterRequest w (GetConversationItems id))
  | Rejected e =>
      (Throw (newError ("Failed to fetch conversation items: " ++ message e)),
       afterRequest w (GetConversationItems id))
  end.
Proof.
  unfold fetchConversationItems, tryCatch, bind, http, afterRequest.
  destruct (server env (requests w) (GetConversationItems id)) as [d | e];
    [destruct d |]; reflexivity.
Qed.

Lemma fetchConversationItems_degrades id env w :
  _fetchConversationItems id env w =
  (Ok (itemsOf (server env (requests w) (GetConversationItems id))),
   afterRequest w (GetConversationItems id)).
Proof.
  unfold _fetchConversationItems, tryCatch. rewrite fetchConversationItems_client_run.
  destruct (server env (requests w) (GetConversationItems id)); reflexivity.
Qed.

Lemma fetchCustomer_metrics fuel id env w :
  metrics (snd (_fetchCustomer fuel id env w)) = metrics w.
Proof.
  revert env w. change (preserves metrics (_fetchCustomer fuel id)).
  unfold _fetchCustomer. apply preserves_tryCatch.
  - apply fetchCustomer_preserves. exact http_metrics.
  - intros e. apply preserves_ret.
Qed.

(** One pass of the loop when both enrichment steps have returned and the
    transformation succeeds: the record is posted, and the pass ends
    normally; it counts an error only if the POST fails. *)
Lemma processConversation_delivers fuel env w conversation items customer w2 record :
  itemsOf (server env (requests w)
             (GetConversationItems (template (conv_id conversation)))) = items ->
  _fetchCustomer fuel (template (conv_customerId conversation)) env
    (withMetrics (afterRequest w (GetConversationItems (template (conv_id conversation))))
                 (addItems (List.length items) (metrics w)))
  = (Ok customer, w2) ->
  transformConversation conversation (Some items) customer = Ok record ->
  truthy (conv_createdAt conversation) = true ->
  fst (processConversation fuel conversation env w) = Ok tt /\
  requests (snd (processConversation fuel conversation env w))
  = requests w2 ++ [PostFeedback record] /\
  (forall d, server env (requests w2) (PostFeedback record) = Resolved d ->
             errorsCount (metrics (snd (processConversation fuel conversation env w)))
             = errorsCount (metrics w)).
Proof.
  intros Hitems Hcust Htrans Hcreated.
  assert (Hvalid : _validateFeedbackData record = Ok tt).
  { apply validate_acceptable.
    destruct (transformConversation_fields _ _ _ _ Htrans)
      as (Hid & Hsrc & Hts & Hmeta & _ & _).
    unfold acceptable. rewrite Hid, Hsrc, Hts, Hmeta, Hcreated.
    repeat split; try reflexivity. right. discriminate. }
  pose proof (fetchCustomer_metrics fuel (template (conv_customerId conversation)) env
                (withMetrics
                   (afterRequest w (GetConversationItems (template (conv_id conversation))))
                   (addItems (List.length items) (metrics w)))) as Hm.
  rewrite Hcust in Hm. simpl in Hm.
  unfold withMetrics, afterRequest in Hcust. simpl in Hcust.
  set (w3 := match customer with
             | Some _ => withMetrics w2 (countCustomer (metrics w2))
             | None => w2
             end).
  assert (Hrun : processConversation fuel conversation env w =
                 match server env (requests w3) (PostFeedback record) with
                 | Resolved _ => (Ok tt, afterRequest w3 (PostFeedback record))
                 | Rejected _ =>
                     (Ok tt, withMetrics (afterRequest w3 (PostFeedback record))
                                         (countError (metrics w3)))
                 end).
  { unfold processConversation, tryCatch at 1.
    unfold bind at 1. rewrite fetchConversationItems_degrades, Hitems.
    unfold bind at 1. unfold modifyMetrics at 1. unfold bind at 1. simpl.
    unfold bind at 1. rewrite Hcust.
    unfold bind at 1.
    assert (Hd : (match customer with
                  | Some _ => modifyMetrics countCustomer
                  | None => ret tt
                  end) env w2 = (Ok tt, w3)).
    { subst w3. destruct customer; reflexivity. }
    rewrite Hd. unfold bind at 1, lift. rewrite Htrans.
    unfold importFeedback, tryCatch, bind, lift, http, ret, throw, modifyMetrics,
      getMetrics, setMetrics, withMetrics, afterRequest.
    rewrite Hvalid.
    destruct (server env (requests w3) (PostFeedback record)); reflexivity. }
  assert (Hreq : requests w3 = requests w2) by (subst w3; destruct customer; reflexivity).
  assert (Herr : errorsCount (metrics w3) = errorsCount (metrics w)).
  { subst w3. destruct customer; simpl; rewrite Hm; reflexivity. }
  rewrite Hrun, <- Hreq.
  destruct (server env (requests w3) (PostFeedback record)) eqn:Es; simpl;
    repeat split; auto; intros; congruence.
Qed.

(** The source reader's own method raises when the call fails; it is the
    importer's wrapper that turns the failure into an empty list. *)
Lemma fetchConversationItems_client_throws id env w e :
  server env (requests w) (GetConversationItems id) = Rejected e ->
  fst (fetchConversationItems id env w)
  = Throw (newError ("Failed to fetch conversation items: " ++ message e)).
Proof. intros H. rewrite fetchConversationItems_client_run, H. reflexivity. Qed.

(** C5.  The item fetch of the pipeline ([_fetchConversationItems], which
    wraps the reader's [fetchConversationItems]) always returns a list
    after its one request, never an error: the items of the response, and
    the empty list when the response carries no item array, carries an
    empty one, or the call fails.  In that case the pass over the
    conversation goes on: once the customer fetch has returned, the
    conversation (one with a status and a [createdAt]) is transformed with
    no items, its content is the empty string, and the record is posted;
    the pass ends normally. *)
Theorem item_fetch_failure_degrades :
  (forall id env w,
      _fetchConversationItems id env w =
      (Ok (itemsOf (server env (requests w) (GetConversationItems id))),
       afterRequest w (GetConversationItems id))) /\
  (forall e, itemsOf (Rejected e) = []) /\
  itemsOf (Resolved NoData) = [] /\
  itemsOf (Resolved (Items [])) = [] /\
  (forall fuel env w conversation status customer w2,
      conv_status conversation = Some status ->
      truthy (conv_createdAt conversation) = true ->
      itemsOf (server env (requests w)
                 (GetConversationItems (template (conv_id conversation)))) = [] ->
      _fetchCustomer fuel (template (conv_customerId conversation)) env
        (withMetrics
           (afterRequest w (GetConversationItems (template (conv_id conversation))))
           (addItems 0 (metrics w)))
      = (Ok customer, w2) ->
      exists record,
        transformConversation conversation (Some []) customer = Ok record /\
        fr_content record = Some "" /\
        fst (processConversation fuel conversation env w) = Ok tt /\
        requests (snd (processConversation fuel conversation env w))
        = requests w2 ++ [PostFeedback record]) /\
  (exists record,
      fr_content record = Some "" /\
      fst (processConversation 1 sampleConversation itemsDown (initialWorld Missing))
      = Ok tt /\
      requests (snd (processConversation 1 sampleConversation itemsDown
                       (initialWorld Missing)))
      = [GetConversationItems "C1"; GetCustomerProfile "cust-1"; PostFeedback record]).
Proof.
  split; [exact fetchConversationItems_degrades |].
  split; [reflexivity |]. split; [reflexivity |]. split; [reflexivity |].
  split.
  - intros fuel env w conversation status customer w2 Hs Hcreated Hitems Hcust.
    destruct (transformConversation_empty conversation customer status (Some [])
                Hs (or_intror eq_refl)) as (record & Htrans & _ & Hcontent).
    exists record. split; [exact Htrans |]. split; [exact Hcontent |].
    destruct (processConversation_delivers fuel env w conversation [] customer w2 record
                Hitems Hcust Htrans Hcreated) as (Hok & Hreq & _).
    split; assumption.
  - eexists. split; [| split]; [| reflexivity | reflexivity]. reflexivity.
Qed.

(** ** Merged customers *)

Lemma fetchCustomer_step fuel id env w :
  fetchCustomer (S fuel) id env w =
  match server env (requests w) (GetCustomerProfile id) with
  | Resolved d => (Ok (profileOf d), afterRequest w (GetCustomerProfile id))
  | Rejected e =>
      match isMoved e with
      | Some r =>
          match location r with
          | Some loc =>
              fetchCustomer fuel (lastSegment loc) env
                (afterRequest w (GetCustomerProfile id))
          | None =>
              (Throw (typeError "Cannot read properties of undefined (reading 'split')"),
               afterRequest w (GetCustomerProfile id))
          end
      | None =>
          (Throw (newError ("Failed to fetch customer: " ++ message e)),
           afterRequest w (GetCustomerProfile id))
      end
  end.
Proof.
  simpl. unfold tryCatch, bind, http, afterRequest.
  destruct (server env (requests w) (GetCustomerProfile id)) as [d | e].
  - destruct d; reflexivity.
  - destruct (isMoved e) as [r |]; [| reflexivity].
    destruct (location r); reflexivity.
Qed.

(** A fetch that has completed is not changed by a larger bound. *)
Lemma fetchCustomer_fuel_monotone fuel : forall fuel' id env w out w',
  fetchCustomer fuel id env w = (out, w') ->
  out <> OutOfFuel ->
  fuel <= fuel' ->
  fetchCustomer fuel' id env w = (out, w').
Proof.
  induction fuel as [| fuel IH]; intros fuel' id env w out w' Hrun Hout Hle.
  - simpl in Hrun. unfold outOfFuel in Hrun. inversion Hrun; subst. now elim Hout.
  - destruct fuel' as [| fuel']; [lia |].
    rewrite fetchCustomer_step in *.
    destruct (server env (requests w) (GetCustomerProfile id)) as [d | e];
      [exact Hrun |].
    destruct (isMoved e) as [r |]; [| exact Hrun].
    destruct (location r) as [loc |]; [| exact Hrun].
    apply IH; [exact Hrun | exact Hout | lia].
Qed.

Lemma fetchCustomer_wrapper_never_throws fuel id env w e :
  fst (_fetchCustomer fuel id env w) <> Throw e.
Proof.
  unfold _fetchCustomer, tryCatch.
  destruct (fetchCustomer fuel id env w) as [[c | e' |] w1]; simpl; discriminate.
Qed.

(** *** The client's own following of redirects *)

Lemma redirectOf_redirectsTo answer target :
  redirectOf answer = Some target <-> redirectsTo answer target.
Proof.
  unfold redirectOf, redirectsTo. split.
  - destruct answer as [d | e]; [discriminate |].
    destruct (response e) as [r |] eqn:Er; [| discriminate].
    destruct (Z.leb_spec 300 (status r)); [| discriminate].
    destruct (Z.ltb_spec (status r) 400); [| discriminate].
    cbn. intros Hl. exists e, r. repeat split; auto.
  - intros (e & r & -> & -> & [Hlo Hhi] & Hl).
    apply Z.leb_le in Hlo. apply Z.ltb_lt in Hhi. now rewrite Hlo, Hhi.
Qed.

Lemma redirectOf_final answer : redirectOf answer = None <-> final answer.
Proof.
  unfold final. split.
  - intros Hnone target Hred. apply redirectOf_redirectsTo in Hred. congruence.
  - intros Hfinal. destruct (redirectOf answer) as [target |] eqn:E; [| reflexivity].
    apply redirectOf_redirectsTo in E. now elim (Hfinal target).
Qed.

Lemma follow_chain wire : forall targets n q answer,
  redirectChain wire q targets answer ->
  List.length targets <= n ->
  follow wire n q = (answer, q :: map Follow targets).
Proof.
  induction targets as [| target rest IH]; intros n q answer H Hlen; cbn in H.
  - destruct H as [<- Hfinal]. apply redirectOf_final in Hfinal.
    destruct n; cbn [follow]; rewrite Hfinal; reflexivity.
  - destruct H as [Hred Hrest]. apply redirectOf_redirectsTo in Hred.
    destruct n as [| n]; [cbn in Hlen; lia |].
    cbn [follow]. rewrite Hred.
    rewrite (IH n (Follow target) answer Hrest) by (cbn in Hlen; lia).
    reflexivity.
Qed.

Lemma follow_run wire : forall targets q,
  redirectRun wire q targets ->
  follow wire (List.length targets) q
  = (Rejected tooManyRedirects, q :: map Follow targets).
Proof.
  induction targets as [| target rest IH]; intros q H; cbn in H.
  - destruct H as [target Hred]. apply redirectOf_redirectsTo in Hred.
    cbn [follow List.length]. now rewrite Hred.
  - destruct H as [Hred Hrest]. apply redirectOf_redirectsTo in Hred.
    cbn [follow List.length]. rewrite Hred, (IH _ Hrest). reflexivity.
Qed.

(** What the client hands over is never a redirect that could still be
    followed. *)
Lemma follow_final wire : forall n q, redirectOf (fst (follow wire n q)) = None.
Proof.
  induction n as [| n IH]; intros q; cbn [follow];
    destruct (redirectOf (wire q)) as [target |] eqn:E; cbn; try exact E;
    try reflexivity.
  specialize (IH (Follow target)).
  destruct (follow wire n (Follow target)) as [answer log]. exact IH.
Qed.

Lemma client_never_moved wire history r e resp :
  client wire history r = Rejected e ->
  isMoved e = Some resp ->
  location resp = None.
Proof.
  intros Hc Hm.
  pose proof (follow_final (wire history) maxRedirects (Call r)) as Hf.
  unfold client in Hc. rewrite Hc in Hf. unfold redirectOf in Hf.
  unfold isMoved in Hm. destruct (response e) as [r0 |]; [| discriminate].
  destruct (Z.eqb_spec (status r0) 301) as [H301 |]; [| discriminate].
  injection Hm as <-. rewrite H301 in Hf. exact Hf.
Qed.

(** Over that client [fetchCustomer] makes one call and does not call
    itself. *)
Lemma fetchCustomer_over_client wire env fuel id w :
  (forall history r, server env history r = client wire history r) ->
  fetchCustomer (S fuel) id env w =
  (match server env (requests w) (GetCustomerProfile id) with
   | Resolved d => Ok (profileOf d)
   | Rejected e =>
       match isMoved e with
       | Some _ =>
           Throw (typeError "Cannot read properties of undefined (reading 'split')")
       | None => Throw (newError ("Failed to fetch customer: " ++ message e))
       end
   end,
   afterRequest w (GetCustomerProfile id)).
Proof.
  intros Henv. rewrite fetchCustomer_step.
  destruct (server env (requests w) (GetCustomerProfile id)) as [d | e] eqn:Hs;
    [reflexivity |].
  destruct (isMoved e) as [resp |] eqn:Hm; [| reflexivity].
  rewrite Henv in Hs. now rewrite (client_never_moved _ _ _ _ _ Hs Hm).
Qed.

Lemma fetchCustomer_absent wire env fuel id w e :
  (forall history r, server env history r = client wire history r) ->
  server env (requests w) (GetCustomerProfile id) = Rejected e ->
  (exists e', fetchCustomer (S fuel) id env w
              = (Throw e', afterRequest w (GetCustomerProfile id))) /\
  _fetchCustomer (S fuel) id env w = (Ok None, afterRequest w (GetCustomerProfile id)).
Proof.
  intros Henv Hs. unfold _fetchCustomer, tryCatch.
  rewrite (fetchCustomer_over_client wire env fuel id w Henv), Hs.
  destruct (isMoved e); split; eauto.
Qed.

Lemma moved_redirectsTo target : redirectsTo (Rejected (moved target)) target.
Proof.
  exists (moved target), {| status := 301; location := Some target |}.
  cbn. repeat split; lia.
Qed.

Lemma mergedTwice_chain :
  redirectChain mergedTwice (Call (GetCustomerProfile "C1"))
    ["/api/v1/customer-profiles/C2"; "/api/v1/customer-profiles/C3"]
    (Resolved (Profile (profile "C3"))).
Proof.
  cbn [redirectChain]. split; [| split; [| split]].
  - exact (moved_redirectsTo "/api/v1/customer-profiles/C2").
  - exact (moved_redirectsTo "/api/v1/customer-profiles/C3").
  - reflexivity.
  - intros target (e & r & H & _). discriminate H.
Qed.

(** C4 as stated, refuted.  A fetch that receives a "moved" signal is not
    retried exactly once: for a customer merged twice the request for C1
    is answered "moved to C2", the request for C2 "moved to C3", and C3 is
    requested as well. *)
Lemma fetchCustomer_follows_second_move :
  ~ (forall (wire : list Request -> WireRequest -> HttpResult) (env : Env)
            (w : World) (id target : string),
        (forall history r, server env history r = client wire history r) ->
        redirectsTo (wire (requests w) (Call (GetCustomerProfile id))) target ->
        wireLog wire (requests w) (GetCustomerProfile id)
        = [Call (GetCustomerProfile id); Follow target]).
Proof.
  intros H.
  specialize (H (fun _ => mergedTwice) (overWire mergedTwice) (initialWorld Missing)
                "C1" "/api/v1/customer-profiles/C2" (fun _ _ => eq_refl)
                (proj1 mergedTwice_chain)).
  vm_compute in H. discriminate H.
Qed.

(** C4 (amended).  With the HTTP client the code builds, a request for a
    customer that is answered by a "moved" signal (a redirect carrying
    the location of the replacement) is followed by a request for that
    location, and so on for each further signal, up to 21 redirects for
    one fetch: the profile at the end of the chain is returned.  When the
    request after the 21st redirect is redirected again, and on any other
    failure, the reader's [fetchCustomer] raises, which the importer's
    [_fetchCustomer] turns into "absent"; [_fetchCustomer] never raises.
    With an absent customer the conversation is still transformed and
    posted, the record carrying no customer.  For a customer merged once
    (C2 into C3) the fetch of C2 returns C3's profile after two requests;
    for one merged twice the fetch of C1 returns C3's profile after three;
    in a merge cycle the fetch is absent after 22 requests. *)
Theorem fetchCustomer_follows_moves :
  forall (wire : list Request -> WireRequest -> HttpResult) (env : Env),
    (forall history r, server env history r = client wire history r) ->
    (forall w id targets answer,
        redirectChain (wire (requests w)) (Call (GetCustomerProfile id)) targets answer ->
        List.length targets <= 21 ->
        wireLog wire (requests w) (GetCustomerProfile id)
        = Call (GetCustomerProfile id) :: map Follow targets /\
        (forall d fuel,
            answer = Resolved d ->
            fetchCustomer (S fuel) id env w
            = (Ok (profileOf d), afterRequest w (GetCustomerProfile id)) /\
            _fetchCustomer (S fuel) id env w
            = (Ok (profileOf d), afterRequest w (GetCustomerProfile id))) /\
        (forall e fuel,
            answer = Rejected e ->
            (exists e', fetchCustomer (S fuel) id env w
                        = (Throw e', afterRequest w (GetCustomerProfile id))) /\
            _fetchCustomer (S fuel) id env w
            = (Ok None, afterRequest w (GetCustomerProfile id)))) /\
    (forall w id targets,
        redirectRun (wire (requests w)) (Call (GetCustomerProfile id)) targets ->
        List.length targets = 21 ->
        wireLog wire (requests w) (GetCustomerProfile id)
        = Call (GetCustomerProfile id) :: map Follow targets /\
        forall fuel,
          fetchCustomer (S fuel) id env w
          = (Throw (newError "Failed to fetch customer: Maximum number of redirects exceeded"),
             afterRequest w (GetCustomerProfile id)) /\
          _fetchCustomer (S fuel) id env w
          = (Ok None, afterRequest w (GetCustomerProfile id))) /\
    (forall fuel w id e, fst (_fetchCustomer fuel id env w) <> Throw e) /\
    (forall fuel w conversation items w2 record,
        itemsOf (server env (requests w)
                   (GetConversationItems (template (conv_id conversation)))) = items ->
        _fetchCustomer fuel (template (conv_customerId conversation)) env
          (withMetrics
             (afterRequest w (GetConversationItems (template (conv_id conversation))))
             (addItems (List.length items) (metrics w)))
        = (Ok None, w2) ->
        transformConversation conversation (Some items) None = Ok record ->
        truthy (conv_createdAt conversation) = true ->
        fr_customer record = None /\
        fst (processConversation fuel conversation env w) = Ok tt /\
        requests (snd (processConversation fuel conversation env w))
        = requests w2 ++ [PostFeedback record]) /\
    (fetchCustomer 1 "C2" (overWire mergedTwice) (initialWorld Missing)
     = (Ok (Some (profile "C3")),
        {| requests := [GetCustomerProfile "C2"];
           stateFile := Missing; metrics := emptyMetrics |}) /\
     wireLog (fun _ => mergedTwice) [] (GetCustomerProfile "C2")
     = [Call (GetCustomerProfile "C2"); Follow "/api/v1/customer-profiles/C3"]) /\
    (fetchCustomer 1 "C1" (overWire mergedTwice) (initialWorld Missing)
     = (Ok (Some (profile "C3")),
        {| requests := [GetCustomerProfile "C1"];
           stateFile := Missing; metrics := emptyMetrics |}) /\
     wireLog (fun _ => mergedTwice) [] (GetCustomerProfile "C1")
     = [Call (GetCustomerProfile "C1"); Follow "/api/v1/customer-profiles/C2";
        Follow "/api/v1/customer-profiles/C3"]) /\
    (_fetchCustomer 1 "C1" (overWire mergeCycle) (initialWorld Missing)
     = (Ok None,
        {| requests := [GetCustomerProfile "C1"];
           stateFile := Missing; metrics := emptyMetrics |}) /\
     List.length (wireLog (fun _ => mergeCycle) [] (GetCustomerProfile "C1")) = 22).
Proof.
  intros wire env Henv.
  split; [| split; [| split; [| split; [| split; [| split]]]]].
  - intros w id targets answer Hchain Hlen.
    pose proof (follow_chain (wire (requests w)) targets maxRedirects
                  (Call (GetCustomerProfile id)) answer Hchain Hlen) as Hfollow.
    assert (Hserver : server env (requests w) (GetCustomerProfile id) = answer)
      by (rewrite Henv; unfold client; now rewrite Hfollow).
    split; [unfold wireLog; now rewrite Hfollow |]. split.
    + intros d fuel ->. unfold _fetchCustomer, tryCatch.
      rewrite (fetchCustomer_over_client wire env fuel id w Henv), Hserver.
      split; reflexivity.
    + intros e fuel ->. exact (fetchCustomer_absent wire env fuel id w e Henv Hserver).
  - intros w id targets Hrun Hlen.
    pose proof (follow_run (wire (requests w)) targets (Call (GetCustomerProfile id)) Hrun)
      as Hfollow.
    rewrite Hlen in Hfollow. change 21 with maxRedirects in Hfollow.
    assert (Hserver : server env (requests w) (GetCustomerProfile id)
                      = Rejected tooManyRedirects)
      by (rewrite Henv; unfold client; now rewrite Hfollow).
    split; [unfold wireLog; now rewrite Hfollow |].
    intros fuel. unfold _fetchCustomer, tryCatch.
    rewrite (fetchCustomer_over_client wire env fuel id w Henv), Hserver.
    split; reflexivity.
  - intros fuel w id e. apply fetchCustomer_wrapper_never_throws.
  - intros fuel w conversation items w2 record Hitems Hcust Htrans Hcreated.
    destruct (processConversation_delivers fuel env w conversation items None w2 record
                Hitems Hcust Htrans Hcreated) as (Hok & Hreq & _).
    destruct (transformConversation_fields _ _ _ _ Htrans) as (_ & _ & _ & _ & Hc & _).
    repeat split; assumption.
  - split; reflexivity.
  - split; reflexivity.
  - split; vm_compute; reflexivity.
Qed.

Lemma fetchCustomer_follows_moves_witness :
  wireLog (fun _ => mergedTwice) (requests (initialWorld Missing)) (GetCustomerProfile "C1")
  = Call (GetCustomerProfile "C1")
    :: map Follow ["/api/v1/customer-profiles/C2"; "/api/v1/customer-profiles/C3"] /\
  _fetchCustomer 1 "C1" (overWire mergedTwice) (initialWorld Missing)
  = (Ok (profileOf (Profile (profile "C3"))),
     afterRequest (initialWorld Missing) (GetCustomerProfile "C1")).
Proof.
  destruct (proj1 (fetchCustomer_follows_moves (fun _ => mergedTwice) (overWire mergedTwice)
                     (fun _ _ => eq_refl))
              (initialWorld Missing) "C1"
              ["/api/v1/customer-profiles/C2"; "/api/v1/customer-profiles/C3"]
              (Resolved (Profile (profile "C3"))) mergedTwice_chain)
    as (Hlog & Hok & _).
  - cbn. lia.
  - split; [exact Hlog |]. exact (proj2 (Hok (Profile (profile "C3")) 0 eq_refl)).
Defined.

(** ** The persisted import time *)

Lemma updateLastImportTime_run t env w :
  updateLastImportTime (ValidDate t) env w =
  if writable env w
  then (Ok true,
        {| requests := requests w;
           stateFile := Stored (Some (ValidDate t)) (Some (ValidDate (clock env w)));
           metrics := metrics w |})
  else (Ok false, w).
Proof.
  unfold updateLastImportTime, tryCatch, bind, lift, now, writeStateFile, ret. simpl.
  destruct (writable env w); reflexivity.
Qed.

Lemma validateConnections_run env w :
  _validateConnections env w =
  match server env (requests w) GetOrganization with
  | Rejected e =>
      (Throw (newError ("Connection validation failed: "
                        ++ ("Failed to connect to Gladly API: " ++ message e))),
       afterRequest w GetOrganization)
  | Resolved NoData =>
      (Throw (newError ("Connection validation failed: "
                        ++ ("Failed to connect to Gladly API: "
                            ++ "Cannot read properties of undefined (reading 'name')"))),
       afterRequest w GetOrganization)
  | Resolved _ =>
      match server env (requests w ++ [GetOrganization]) GetStatus with
      | Rejected e =>
          (Throw (newError ("Connection validation failed: "
                            ++ ("Failed to connect to Enterpret API: " ++ message e))),
           afterRequest (afterRequest w GetOrganization) GetStatus)
      | Resolved _ => (Ok tt, afterRequest (afterRequest w GetOrganization) GetStatus)
      end
  end.
Proof.
  unfold _validateConnections, GladlyClient.validateConnection,
    EnterpretClient.validateConnection, tryCatch, bind, http, afterRequest, throw, ret.
  destruct (server env (requests w) GetOrganization) as [d | e]; [| reflexivity].
  destruct d; simpl; try reflexivity;
    destruct (server env (requests w ++ [GetOrganization]) GetStatus); reflexivity.
Qed.

Lemma validateConnections_world env w o w1 :
  _validateConnections env w = (o, w1) ->
  stateFile w1 = stateFile w /\
  (forall a, o = Ok a -> w1 = afterRequest (afterRequest w GetOrganization) GetStatus).
Proof.
  rewrite validateConnections_run.
  destruct (server env (requests w) GetOrganization) as [d | e].
  - destruct d;
      try (destruct (server env (requests w ++ [GetOrganization]) GetStatus));
      intros [= <- <-]; split; try reflexivity; intros a; discriminate.
  - intros [= <- <-]. split; [reflexivity | discriminate].
Qed.

Lemma determineStartDate_world full user :
  preserves (fun w => w) (_determineStartDate full user).
Proof. unfold _determineStartDate, getLastImportTime. keeps. Qed.

Ltac unchanged := cbv [ends throw fst snd runLeaves]; simpl in *; congruence.

Ltac stage lemma :=
  apply ends_bind; apply (ends_preserves stateFile); [lemma |];
  let o := fresh "o" in let w1 := fresh "w" in let H := fresh "Hfile" in
  intros o w1 H; simpl in H; destruct o as [? | ? |]; [| unchanged | unchanged].

Lemma import_runLeaves fuel batchSize options env w :
  ends (import fuel batchSize options) env w (runLeaves env w options).
Proof.
  unfold import.
  apply ends_bind. unfold ends at 1. simpl.
  apply ends_bind. unfold ends at 1. simpl.
  apply ends_tryCatch.
  apply ends_bind. unfold ends at 1.
  match goal with
  | |- context [_validateConnections env ?w0] =>
      destruct (_validateConnections env w0) as [o w1] eqn:Hv;
      destruct (validateConnections_world _ _ _ _ Hv) as [Hfile Hworld]
  end.
  cbn [fst snd]. cbn [stateFile] in Hfile.
  destruct o as [[] | e | ]; [| unchanged | unchanged].
  assert (Hw1 : w1 = afterPreflight env w).
  { rewrite (Hworld tt eq_refl). unfold afterPreflight, afterRequest. cbn.
    now rewrite <- app_assoc. }
  clear Hworld Hv.
  apply ends_bind. unfold ends at 1.
  pose proof (determineStartDate_world (isFullImport options) (startDate options) env w1)
    as Hsame.
  destruct (_determineStartDate (isFullImport options) (startDate options) env w1)
    as [o w2]. cbn [fst snd] in *. subst w2.
  destruct o as [importStartDate | e |]; [| unchanged | unchanged].
  apply ends_bind.
  assert (Hend : exists importEndDate,
             (match endDate options with Some d => ret d | None => now end) env w1
             = (Ok importEndDate, w1) /\
             importEndDate = match endDate options with
                             | Some given => given
                             | None => ValidDate (clock env (afterPreflight env w))
                             end).
  { rewrite <- Hw1. destruct (endDate options) as [d |]; eexists; split; reflexivity. }
  destruct Hend as (importEndDate & Hrun & Hres).
  unfold ends at 1. rewrite Hrun. simpl.
  stage ltac:(apply preserves_lift).
  apply ends_bind. unfold ends at 1, lift at 1. simpl.
  destruct importEndDate as [tEnd |]; simpl; [| unchanged].
  stage ltac:(apply fetchConversations_all_stateFile).
  stage ltac:(apply modifyMetrics_stateFile).
  stage ltac:(apply preserves_forEachM; intros; apply processLine_stateFile).
  apply ends_bind. unfold ends at 1. simpl.
  match goal with
  | |- context [errorsCount (metrics ?w5)] =>
      assert (Hsame : stateFile w5 = stateFile w) by congruence;
      assert (Hresolved : resolvedEndDate env w options (ValidDate tEnd))
        by (split; [reflexivity | exact Hres]);
      destruct (Nat.eqb_spec (errorsCount (metrics w5)) 0) as [Hzero | Hnonzero];
      [ unfold ends, bind; rewrite updateLastImportTime_run;
        destruct (writable env w5) eqn:Ew; simpl;
        (split; [intros Hne; now elim Hne |]);
        intros _; exists (ValidDate tEnd); (split; [exact Hresolved |]);
        [ split; [right |]; eauto
        | split; [now left |]; intros Hall; rewrite Hall in Ew; discriminate ]
      | unfold ends, bind; simpl; split; [intros _; exact Hsame |];
        intros Hz; now elim Hnonzero ]
  end.
Qed.



(* ====================================================================== *)
(** * Further properties of the code *)
(* ====================================================================== *)

(** ** The state store *)

Lemma getLastImportTime_run env w :
  getLastImportTime env w = (Ok (lastImportTimeOf (stateFile w)), w).
Proof.
  unfold getLastImportTime, tryCatch, bind, readStateFile.
  destruct (stateFile w); reflexivity.
Qed.

Lemma updateLastImportTime_invalid env w :
  updateLastImportTime InvalidDate env w = (Ok false, w).
Proof. reflexivity. Qed.

(** X1.  [updateLastImportTime] never throws: it answers [true] exactly
    when the timestamp is a valid date and the file can be written, and
    [false] otherwise, in which case nothing changes.  After a [true],
    [getLastImportTime] returns the timestamp that was written. *)
Theorem state_update_then_read :
  forall (timestamp : Date) (env : Env) (w : World),
    let result := updateLastImportTime timestamp env w in
    (fst result = Ok true \/ fst result = Ok false) /\
    (fst result = Ok true <-> isValid timestamp = true /\ writable env w = true) /\
    (fst result = Ok false -> snd result = w) /\
    (fst result = Ok true ->
     forall env', getLastImportTime env' (snd result) = (Ok (Some timestamp), snd result)).
Proof.
  intros timestamp env w result. subst result.
  destruct timestamp as [t |].
  - rewrite updateLastImportTime_run.
    destruct (writable env w) eqn:Ew; simpl;
      repeat split; auto; try discriminate;
      try (intros [? ?]; discriminate);
      try (intros _ env'; now rewrite getLastImportTime_run).
  - rewrite updateLastImportTime_invalid. simpl.
    repeat split; auto; try discriminate.
    all: intros [? ?]; discriminate.
Qed.

Lemma resetState_run env w :
  resetState env w =
  match stateFile w with
  | Missing => (Ok true, w)
  | _ =>
      if writable env w
      then (Ok true, {| requests := requests w; stateFile := Missing; metrics := metrics w |})
      else (Ok true, w)
  end.
Proof.
  unfold resetState, tryCatch, bind, readStateFile, writeStateFile, ret, throw.
  destruct (stateFile w); simpl; try reflexivity;
    destruct (writable env w); reflexivity.
Qed.

(** X2.  [resetState] always answers [true].  When there is no state file
    or the file can be deleted, there is no state file afterwards and
    [getLastImportTime] finds nothing; when the file cannot be deleted it
    stays as it is, and the answer is [true] all the same. *)
Theorem resetState_always_true :
  forall (env : Env) (w : World),
    let result := resetState env w in
    fst result = Ok true /\
    (stateFile w = Missing \/ writable env w = true ->
     stateFile (snd result) = Missing /\
     forall env', fst (getLastImportTime env' (snd result)) = Ok None) /\
    (stateFile w <> Missing -> writable env w = false -> snd result = w).
Proof.
  intros env w result. subst result. rewrite resetState_run.
  destruct (stateFile w) eqn:Ef; destruct (writable env w) eqn:Ew;
    cbn [fst snd stateFile];
    (split; [reflexivity |]); (split; [| congruence]);
    intros [H | H]; try discriminate;
    (split; [assumption || reflexivity |]);
    intros env'; rewrite getLastImportTime_run; cbn [fst stateFile];
    try rewrite Ef; reflexivity.
Qed.

(** X3.  [getLastImportTime] never throws and changes nothing: it returns
    the stored time when the file holds one, and nothing when the file is
    missing, cannot be parsed, or holds no [lastImportTime]. *)
Theorem getLastImportTime_fails_soft :
  forall (env : Env) (w : World),
    snd (getLastImportTime env w) = w /\
    (forall t u, stateFile w = Stored (Some t) u ->
                 fst (getLastImportTime env w) = Ok (Some t)) /\
    (stateFile w = Missing \/ stateFile w = Unparsable \/
     (exists u, stateFile w = Stored None u) ->
     fst (getLastImportTime env w) = Ok None).
Proof.
  intros env w. rewrite getLastImportTime_run. simpl.
  split; [reflexivity |]. split.
  - intros t u ->. reflexivity.
  - intros [-> | [-> | [u ->]]]; reflexivity.
Qed.

(** ** Fatal failures of a run *)

Lemma import_run fuel size options env w :
  import fuel size options env w =
  tryCatch
    (bind _validateConnections (fun _ =>
     bind (_determineStartDate (isFullImport options) (startDate options))
       (fun importStartDate =>
     bind (match endDate options with Some d => ret d | None => now end)
       (fun importEndDate =>
     bind (lift (toISOString importStartDate)) (fun _ =>
     bind (lift (toISOString importEndDate)) (fun _ =>
     bind (_fetchConversations fuel size importStartDate importEndDate (limit options))
       (fun conversations =>
     bind (modifyMetrics (setConversationsCount (List.length conversations))) (fun _ =>
     bind (forEachM (fun _ conversation => processLine fuel conversation)
                    conversations tt) (fun _ =>
     bind getMetrics (fun m =>
     bind (if (errorsCount m =? 0)%nat
           then bind (updateLastImportTime importEndDate) (fun _ =>
                bind (lift (toISOString importEndDate)) (fun _ => ret tt))
           else ret tt) (fun _ =>
     bind now (fun endTime =>
     bind (modifyMetrics (setEndTime endTime)) (fun _ => getMetrics)))))))))))))
    (fun error => throw error)
    env (withMetrics w (freshMetrics (ValidDate (clock env w)))).
Proof. reflexivity. Qed.


Lemma bind_ok {A B} (c : M A) (k : A -> M B) env w a w1 :
  c env w = (Ok a, w1) -> bind c k env w = k a env w1.
Proof. intros H. unfold bind. now rewrite H. Qed.

Lemma tryCatch_rethrow {A} (c : M A) env w :
  tryCatch c (fun error => throw error) env w = c env w.
Proof. unfold tryCatch, throw. destruct (c env w) as [[a | e |] w1]; reflexivity. Qed.




Lemma validateConnections_ok env w :
  gladlyAnswers env w && enterpretAnswers env w = true ->
  _validateConnections env w =
  (Ok tt, afterRequest (afterRequest w GetOrganization) GetStatus).
Proof.
  intros H. rewrite validateConnections_run.
  unfold gladlyAnswers, enterpretAnswers in H.
  destruct (server env (requests w) GetOrganization) as [d | e]; [| discriminate].
  destruct d; try discriminate;
    destruct (server env (requests w ++ [GetOrganization]) GetStatus);
    try discriminate; reflexivity.
Qed.

(** X5.  When explicit start and end dates are given and one of them does
    not parse, the run stops with the RangeError of [toISOString] right
    after the two pre-flight calls: nothing is listed, nothing is posted,
    and the state file is untouched. *)
Theorem import_rejects_unparseable_dates :
  forall (fuel size : nat) (options : Options) (env : Env) (w : World)
         (givenStart givenEnd : Date),
    gladlyAnswers env w && enterpretAnswers env w = true ->
    startDate options = Some givenStart ->
    endDate options = Some givenEnd ->
    isValid givenStart && isValid givenEnd = false ->
    let result := import fuel size options env w in
    fst result = Throw (rangeError "Invalid time value") /\
    requests (snd result) = requests w ++ [GetOrganization; GetStatus] /\
    stateFile (snd result) = stateFile w.
Proof.
  intros fuel size options env w givenStart givenEnd Hup Hs He Hbad result.
  subst result. rewrite import_run, tryCatch_rethrow.
  rewrite (bind_ok _ _ _ _ tt _
             (validateConnections_ok env
                (withMetrics w (freshMetrics (ValidDate (clock env w)))) Hup)).
  rewrite Hs, He. unfold _determineStartDate.
  unfold bind, ret, lift.
  destruct givenStart as [s |]; destruct givenEnd as [e |]; try discriminate;
    cbn; rewrite <- app_assoc; auto.
Qed.

Lemma import_rejects_unparseable_dates_witness :
  fst (import 5 100 badEndDate (quietSource 0) (initialWorld Missing))
  = Throw (rangeError "Invalid time value") /\
  requests (snd (import 5 100 badEndDate (quietSource 0) (initialWorld Missing)))
  = [] ++ [GetOrganization; GetStatus] /\
  stateFile (snd (import 5 100 badEndDate (quietSource 0) (initialWorld Missing)))
  = Missing.
Proof.
  exact (import_rejects_unparseable_dates 5 100 badEndDate (quietSource 0)
           (initialWorld Missing) (ValidDate 0) InvalidDate
           eq_refl eq_refl eq_refl eq_refl).
Defined.

(** ** From one run to the next *)

(** X6.  After a run that completes without errors on a writable state
    file, the start date of the next incremental run (no start date
    given, not a full import) is the end date the finished run resolved. *)
Theorem next_incremental_run_resumes :
  forall (fuel size : nat) (options : Options) (env : Env) (w : World)
         (m : Metrics) (w' : World),
    import fuel size options env w = (Ok m, w') ->
    errorsCount m = 0 ->
    (forall x, writable env x = true) ->
    exists resumeAt,
      resolvedEndDate env w options resumeAt /\
      forall env', _determineStartDate false None env' w' = (Ok resumeAt, w').
Proof.
  intros fuel size options env w m w' Hrun Hzero Hwritable.
  pose proof (import_runLeaves fuel size options env w) as Hleaves.
  unfold ends in Hleaves. rewrite Hrun in Hleaves. simpl in Hleaves.
  destruct Hleaves as [_ Hclean].
  destruct (Hclean Hzero) as (d & Hres & _ & Hwrite).
  destruct (Hwrite Hwritable) as [t Ht].
  exists d. split; [exact Hres |].
  intros env'. unfold _determineStartDate.
  rewrite (bind_ok _ _ _ _ _ _ (getLastImportTime_run env' w')).
  rewrite Ht. reflexivity.
Qed.

Lemma next_incremental_run_resumes_witness :
  exists resumeAt,
    resolvedEndDate (quietSource 5000) (initialWorld Missing) oldWindow resumeAt /\
    forall env',
      _determineStartDate false None env'
        (snd (import 5 100 oldWindow (quietSource 5000) (initialWorld Missing)))
      = (Ok resumeAt,
         snd (import 5 100 oldWindow (quietSource 5000) (initialWorld Missing))).
Proof.
  exact (next_incremental_run_resumes 5 100 oldWindow (quietSource 5000)
           (initialWorld Missing) _ _ eq_refl eq_refl (fun _ => eq_refl)).
Defined.

(** ** Paging *)

Lemma fetchPages_step fuel size s e limit all page env w :
  fetchPages (S fuel) size s e limit all page env w =
  match fetchConversations {| opt_startDate := s; opt_endDate := e;
                              GladlyClient.page := page; pageSize := size |} env w with
  | (Ok result, w1) =>
      let all' := all ++ conversations result in
      if limitReached limit (List.length all') then
        (Ok (firstn (match limit with Some l => l | None => 0 end) all'), w1)
      else if hasMore result && noLimitOrBelow limit (List.length all') then
        fetchPages fuel size s e limit all' (page + 1) env w1
      else (Ok all', w1)
  | (Throw err, w1) => (Throw err, w1)
  | (OutOfFuel, w1) => (OutOfFuel, w1)
  end.
Proof.
  cbn [fetchPages]. unfold bind at 1.
  destruct (fetchConversations _ env w) as [[result | err |] w1]; try reflexivity.
  cbv zeta. destruct (limitReached _ _); [reflexivity |].
  destruct (hasMore result && _); reflexivity.
Qed.

Lemma fetchPages_within_limit fuel size s e n :
  forall all page env w l w',
    fetchPages fuel size s e (Some (S n)) all page env w = (Ok l, w') ->
    List.length l <= S n.
Proof.
  induction fuel as [| fuel IH]; intros all page env w l w' Hrun.
  - discriminate.
  - rewrite fetchPages_step in Hrun.
    destruct (fetchConversations _ env w) as [[result | err |] w1]; try discriminate.
    cbv zeta in Hrun. unfold limitReached in Hrun.
    destruct (Nat.leb_spec (S n) (List.length (all ++ conversations result)))
      as [Hreached | Hbelow].
    + assert (Hl : firstn (S n) (all ++ conversations result) = l) by congruence.
      rewrite <- Hl, length_firstn. lia.
    + destruct (hasMore result && _).
      * eapply IH. exact Hrun.
      * inversion Hrun; subst. lia.
Qed.

(** X7.  With a limit of at least one, [_fetchConversations] never returns
    more conversations than the limit, however many a page holds. *)
Theorem fetchConversations_respects_limit :
  forall (fuel size : nat) (from to : Date) (n : nat) (env : Env) (w : World)
         (l : list Entry) (w' : World),
    _fetchConversations fuel size from to (Some (S n)) env w = (Ok l, w') ->
    List.length l <= S n.
Proof.
  intros fuel size from to n env w l w' Hrun.
  unfold _fetchConversations, bind, lift in Hrun.
  destruct (toISOString from); try discriminate.
  destruct (toISOString to); try discriminate.
  eapply fetchPages_within_limit. exact Hrun.
Qed.

Lemma fetchConversations_respects_limit_witness :
  List.length
    [JsonObject sampleConversation; JsonObject sampleConversation] <= 2.
Proof.
  exact (fetchConversations_respects_limit 5 1 (ValidDate 0) (ValidDate 1000) 1
           samePageSource (initialWorld Missing) _ _ eq_refl).
Defined.

Lemma fetchPages_never_ends fuel size s e limit env :
  limit = None \/ limit = Some 0 ->
  (forall options w, pageSize options = size ->
     exists result w',
       fetchConversations options env w = (Ok result, w') /\ hasMore result = true) ->
  forall all page w,
    fst (fetchPages fuel size s e limit all page env w) = OutOfFuel.
Proof.
  intros Hlimit Hfull.
  induction fuel as [| fuel IH]; intros all page w; [reflexivity |].
  rewrite fetchPages_step.
  destruct (Hfull {| opt_startDate := s; opt_endDate := e;
                     GladlyClient.page := page; pageSize := size |} w eq_refl)
    as (result & w1 & -> & Hmore).
  cbv zeta. rewrite Hmore.
  destruct Hlimit as [-> | ->]; simpl; apply IH.
Qed.

(** X8.  Without a limit (none given, or zero) the paging loop ends only
    on a page shorter than the batch size: against a source that answers
    every page with at least a batch of conversations,
    [_fetchConversations] does not return, whatever the bound on the
    number of pages. *)
Theorem fetchConversations_needs_a_short_page :
  forall (size : nat) (from to : Z) (limit : option nat) (env : Env),
    limit = None \/ limit = Some 0 ->
    (forall options w, pageSize options = size ->
       exists result w',
         fetchConversations options env w = (Ok result, w') /\ hasMore result = true) ->
    forall fuel w,
      fst (_fetchConversations fuel size (ValidDate from) (ValidDate to) limit env w)
      = OutOfFuel.
Proof.
  intros size from to limit env Hlimit Hfull fuel w.
  unfold _fetchConversations, bind, lift. cbn [toISOString].
  now apply fetchPages_never_ends.
Qed.

Lemma samePageSource_full_pages :
  forall options w, pageSize options = 1 ->
    exists result w',
      fetchConversations options samePageSource w = (Ok result, w') /\
      hasMore result = true.
Proof.
  intros options w Hsize. unfold fetchConversations. rewrite Hsize.
  eexists. eexists. split; reflexivity.
Qed.

Lemma fetchConversations_needs_a_short_page_witness :
  fst (_fetchConversations 9 1 (ValidDate 0) (ValidDate 1000) None samePageSource
         (initialWorld Missing))
  = OutOfFuel.
Proof.
  exact (fetchConversations_needs_a_short_page 1 0 1000 None samePageSource
           (or_introl eq_refl) samePageSource_full_pages 9 (initialWorld Missing)).
Defined.

(** ** Metrics of a run *)

Lemma ends_weaken {A} (c : M A) env w (Q Q' : Outcome A -> World -> Prop) :
  ends c env w Q -> (forall o w1, Q o w1 -> Q' o w1) -> ends c env w Q'.
Proof. unfold ends. auto. Qed.

Lemma modifyMetrics_run f env w :
  modifyMetrics f env w = (Ok tt, withMetrics w (f (metrics w))).
Proof. reflexivity. Qed.

Lemma fetchPages_metrics fuel size s e limit :
  forall all page, preserves metrics (fetchPages fuel size s e limit all page).
Proof.
  induction fuel as [| fuel IH]; intros all page; simpl; [apply preserves_outOfFuel |].
  apply preserves_bind.
  - unfold fetchConversations, readJob, readFile. keeps.
  - intros result. destruct (limitReached _ _); [apply preserves_ret |].
    destruct (andb _ _); [apply IH | apply preserves_ret].
Qed.

Lemma updateLastImportTime_metrics d : preserves metrics (updateLastImportTime d).
Proof. unfold updateLastImportTime. keeps. Qed.

Lemma bodyEffect_refl m : bodyEffect m m.
Proof. unfold bodyEffect. repeat split; lia. Qed.

Lemma processConversation_body_effect fuel conversation env w :
  ends
    (items <- _fetchConversationItems (template (conv_id conversation)) ;;
     modifyMetrics (addItems (List.length items)) ;;;
     customer <- _fetchCustomer fuel (template (conv_customerId conversation)) ;;
     match customer with
     | Some _ => modifyMetrics countCustomer
     | None => ret tt
     end ;;;
     transformedData <- lift (transformConversation conversation (Some items) customer) ;;
     importFeedback transformedData ;;;
     ret tt)
    env w
    (fun _ w1 => bodyEffect (metrics w) (metrics w1)).
Proof.
  apply ends_bind. unfold ends at 1. rewrite fetchConversationItems_degrades.
  cbn [fst snd].
  set (items := itemsOf _).
  apply ends_bind. unfold ends at 1. rewrite modifyMetrics_run. cbn [fst snd].
  set (w2 := withMetrics _ _).
  assert (H2 : metrics w2 = addItems (List.length items) (metrics w)) by reflexivity.
  clearbody w2.
  apply ends_bind. apply (ends_preserves metrics).
  { unfold _fetchCustomer. apply preserves_tryCatch;
      [apply fetchCustomer_preserves; exact http_metrics | intros; apply preserves_ret]. }
  intros o w3 H3. rewrite <- H3 in H2. clear H3.
  assert (H3 : bodyEffect (metrics w) (metrics w3)).
  { rewrite H2. unfold bodyEffect. simpl. repeat split; lia. }
  destruct o as [customer | err |]; try exact H3.
  apply ends_bind.
  assert (Hc : exists w4,
             (match customer with
              | Some _ => modifyMetrics countCustomer
              | None => ret tt
              end) env w3 = (Ok tt, w4) /\ bodyEffect (metrics w) (metrics w4)).
  { destruct customer; eexists; (split; [reflexivity |]); [| exact H3].
    cbn [metrics withMetrics]. rewrite H2. unfold bodyEffect. simpl.
    repeat split; lia. }
  destruct Hc as (w4 & Hrun & H4). unfold ends at 1. rewrite Hrun. cbn [fst snd].
  apply ends_bind. unfold ends at 1, lift. cbn [fst snd].
  destruct (transformConversation conversation (Some items) customer)
    as [record | err |]; try exact H4.
  apply ends_bind. apply (ends_preserves metrics); [apply importFeedback_metrics |].
  intros o w5 H5. rewrite <- H5 in H4.
  destruct o; exact H4.
Qed.

Lemma processConversation_effect fuel conversation env w :
  let result := processConversation fuel conversation env w in
  (forall e, fst result <> Throw e) /\
  passEffect (metrics w) (metrics (snd result)).
Proof.
  intros result. subst result.
  pose proof (processConversation_body_effect fuel conversation env w) as Hbody.
  unfold ends in Hbody. unfold processConversation, tryCatch.
  match goal with
  | H : bodyEffect _ (metrics (snd ?run)) |- _ =>
      destruct run as [[u | err |] w1]
  end; cbn [fst snd] in *; unfold bodyEffect, passEffect in *.
  - split; [discriminate |]. destruct Hbody as (Ha & Hb & Hc & Hd & He).
    repeat split; try lia; exact He.
  - rewrite modifyMetrics_run. cbn. split; [discriminate |].
    destruct Hbody as (Ha & Hb & Hc & Hd & He). repeat split; try lia; exact He.
  - split; [discriminate |]. destruct Hbody as (Ha & Hb & Hc & Hd & He).
    repeat split; try lia; exact He.
Qed.

Lemma processLine_effect fuel line env w :
  passEffect (metrics w) (metrics (snd (processLine fuel line env w))).
Proof.
  destruct line as [| conversation]; cbn [processLine].
  - unfold bind. rewrite modifyMetrics_run. cbn. unfold passEffect. cbn.
    repeat split; lia.
  - apply processConversation_effect.
Qed.

(** X9.  One pass of the loop over a conversation whose properties can be
    read never throws, whatever fails inside it: it leaves the
    conversation count alone, counts at most one error and at most one
    customer, and never lowers a counter.  The pass over a line that
    parsed to [null] is the one that throws: it counts one error, makes no
    request and ends with the TypeError of [conversation.id], and a run
    that lists such a line ends with that error, the conversations before
    the line posted, those after it not, the state file as it was. *)
Theorem processConversation_never_throws :
  (forall (fuel : nat) (conversation : Conversation) (env : Env) (w : World),
      let result := processConversation fuel conversation env w in
      (forall e, fst result <> Throw e) /\
      passEffect (metrics w) (metrics (snd result))) /\
  (forall (fuel : nat) (conversation : Conversation) (env : Env) (w : World),
      processLine fuel (JsonObject conversation) env w
      = processConversation fuel conversation env w) /\
  (forall (fuel : nat) (env : Env) (w : World),
      processLine fuel JsonNull env w
      = (Throw (typeError "Cannot read properties of null (reading 'id')"),
         withMetrics w (countError (metrics w)))) /\
  (exists record w',
      import 5 100 oldWindow nullLineSource
        (initialWorld (Stored (Some (ValidDate 2000)) None))
      = (Throw (typeError "Cannot read properties of null (reading 'id')"), w') /\
      requests w'
      = [GetOrganization; GetStatus;
         GetExportJobs "1970-01-01T00:00:00.000Z" "1970-01-01T00:00:01.000Z" 0 100;
         GetExportJob "job-1"; GetExportFile "job-1" "conversations.jsonl";
         GetConversationItems "C1"; GetCustomerProfile "cust-1"; PostFeedback record] /\
      errorsCount (metrics w') = 1 /\
      stateFile w' = Stored (Some (ValidDate 2000)) None).
Proof.
  split; [| split; [| split]].
  - intros fuel conversation env w. apply processConversation_effect.
  - reflexivity.
  - reflexivity.
  - eexists. eexists. split; [vm_compute; reflexivity |].
    split; [reflexivity |]. split; reflexivity.
Qed.

Lemma loop_effect fuel env conversations : forall w,
  loopEffect (List.length conversations) (metrics w)
    (metrics (snd (forEachM (fun _ conversation => processLine fuel conversation)
                            conversations tt env w))).
Proof.
  induction conversations as [| c rest IH]; intros w; cbn [forEachM].
  - cbn. unfold loopEffect. repeat split; lia.
  - unfold bind.
    pose proof (processLine_effect fuel c env w) as Hpass.
    destruct (processLine fuel c env w) as [[u | err |] w1]; cbn [fst snd] in *.
    + destruct u. pose proof (IH w1) as Hloop.
      unfold loopEffect, passEffect in *. cbn [List.length].
      destruct Hpass as (Ha & Hb & Hc & Hd & He).
      destruct Hloop as (Ha' & Hb' & Hc' & He').
      repeat split; try lia; congruence.
    + unfold loopEffect, passEffect in *. cbn [List.length].
      destruct Hpass as (Ha & Hb & Hc & Hd & He).
      repeat split; try lia; congruence.
    + unfold loopEffect, passEffect in *. cbn [List.length].
      destruct Hpass as (Ha & Hb & Hc & Hd & He).
      repeat split; try lia; congruence.
Qed.

Lemma validateConnections_metrics : preserves metrics _validateConnections.
Proof.
  unfold _validateConnections, GladlyClient.validateConnection,
    EnterpretClient.validateConnection. keeps.
Qed.

Lemma determineStartDate_metrics full user :
  preserves metrics (_determineStartDate full user).
Proof. unfold _determineStartDate, getLastImportTime. keeps. Qed.

Lemma fetchConversations_all_metrics fuel size s e limit :
  preserves metrics (_fetchConversations fuel size s e limit).
Proof. unfold _fetchConversations. keeps. apply fetchPages_metrics. Qed.

Ltac counted lemma :=
  apply ends_bind; apply (ends_preserves metrics); [lemma |];
  let o := fresh "o" in let w1 := fresh "w" in let H := fresh "Hm" in
  intros o w1 H; destruct o as [? | ? |]; [| exact I | exact I].

Lemma import_counts fuel size options env w :
  ends (import fuel size options) env w
    (fun o w' =>
       match o with
       | Ok m =>
           metrics w' = m /\
           errorsCount m <= conversationsCount m /\
           customersCount m <= conversationsCount m /\
           startTime m = Some (ValidDate (clock env w)) /\
           exists t, endTime m = Some t
       | _ => True
       end).
Proof.
  unfold ends. rewrite import_run, tryCatch_rethrow.
  set (w0 := withMetrics w _).
  assert (H0 : metrics w0 = freshMetrics (ValidDate (clock env w))) by reflexivity.
  clearbody w0. fold (ends
    (bind _validateConnections (fun _ =>
     bind (_determineStartDate (isFullImport options) (startDate options))
       (fun importStartDate =>
     bind (match endDate options with Some d => ret d | None => now end)
       (fun importEndDate =>
     bind (lift (toISOString importStartDate)) (fun _ =>
     bind (lift (toISOString importEndDate)) (fun _ =>
     bind (_fetchConversations fuel size importStartDate importEndDate (limit options))
       (fun conversations =>
     bind (modifyMetrics (setConversationsCount (List.length conversations))) (fun _ =>
     bind (forEachM (fun _ conversation => processLine fuel conversation)
                    conversations tt) (fun _ =>
     bind getMetrics (fun m =>
     bind (if (errorsCount m =? 0)%nat
           then bind (updateLastImportTime importEndDate) (fun _ =>
                bind (lift (toISOString importEndDate)) (fun _ => ret tt))
           else ret tt) (fun _ =>
     bind now (fun endTime =>
     bind (modifyMetrics (setEndTime endTime)) (fun _ => getMetrics)))))))))))))
    env w0
    (fun o w' =>
       match o with
       | Ok m =>
           metrics w' = m /\
           errorsCount m <= conversationsCount m /\
           customersCount m <= conversationsCount m /\
           startTime m = Some (ValidDate (clock env w)) /\
           exists t, endTime m = Some t
       | _ => True
       end)).
  counted ltac:(apply validateConnections_metrics).
  counted ltac:(apply determineStartDate_metrics).
  counted ltac:(destruct (endDate options); keeps).
  counted ltac:(apply preserves_lift).
  counted ltac:(apply preserves_lift).
  counted ltac:(apply fetchConversations_all_metrics).
  lazymatch goal with
  | |- ends (bind (modifyMetrics (setConversationsCount (List.length ?cs))) _) env ?wk _ =>
      rename cs into conversations; rename wk into wlisted
  end.
  assert (Hlisted : metrics wlisted = freshMetrics (ValidDate (clock env w)))
    by congruence.
  apply ends_bind. unfold ends at 1. rewrite modifyMetrics_run. cbn [fst snd].
  set (wcounted := withMetrics wlisted _).
  assert (Hcounted : metrics wcounted =
               setConversationsCount (List.length conversations)
                 (freshMetrics (ValidDate (clock env w))))
    by (subst wcounted; cbn [metrics withMetrics]; now rewrite Hlisted).
  clearbody wcounted.
  apply ends_bind. unfold ends at 1.
  pose proof (loop_effect fuel env conversations wcounted) as Hloop.
  destruct (forEachM _ conversations tt env wcounted) as [[u | err |] wlooped];
    cbn [fst snd] in *; try exact I.
  rewrite Hcounted in Hloop. unfold loopEffect in Hloop. simpl in Hloop.
  destruct Hloop as (Hconv & Herr & Hcust & Hstart).
  apply ends_bind. unfold ends at 1. cbn [fst snd getMetrics].
  apply ends_bind.
  apply (ends_preserves metrics).
  { destruct (errorsCount (metrics wlooped) =? 0)%nat; [| apply preserves_ret].
    apply preserves_bind; [apply updateLastImportTime_metrics | intros; keeps]. }
  intros o wlast Hlast. destruct o as [? | ? |]; try exact I.
  unfold ends, bind, now, modifyMetrics, getMetrics, setMetrics. cbn.
  rewrite Hlast. cbn. repeat split; try lia; eauto.
Qed.

(** X10.  The metrics a run returns are consistent: the errors and the
    customers counted never exceed the conversations counted, the start
    time is the clock's time at the start of the run, and an end time is
    set. *)
Theorem import_metrics_consistent :
  forall (fuel size : nat) (options : Options) (env : Env) (w : World)
         (m : Metrics) (w' : World),
    import fuel size options env w = (Ok m, w') ->
    errorsCount m <= conversationsCount m /\
    customersCount m <= conversationsCount m /\
    startTime m = Some (ValidDate (clock env w)) /\
    exists t, endTime m = Some t.
Proof.
  intros fuel size options env w m w' Hrun.
  pose proof (import_counts fuel size options env w) as H.
  unfold ends in H. rewrite Hrun in H. cbn [fst snd] in H. tauto.
Qed.

Lemma import_metrics_consistent_witness :
  0 <= 2 /\ 0 <= 2 /\
  Some (ValidDate 0) = Some (ValidDate (clock samePageSource (initialWorld Missing))) /\
  exists t, Some (ValidDate 0) = Some t.
Proof.
  eapply (import_metrics_consistent 5 1 firstTwo samePageSource (initialWorld Missing)
            {| conversationsCount := 2; itemsCount := 0; customersCount := 0;
               errorsCount := 0; startTime := Some (ValidDate 0);
               endTime := Some (ValidDate 0) |}).
  vm_compute. reflexivity.
Defined.

(** ** What a run requests *)

Section Issues.

Variable P : Request -> Prop.

Lemma issues_nothing {A} (c : M A) :
  (forall env w, requests (snd (c env w)) = requests w) -> issuesOnly P c.
Proof.
  intros H env w. exists []. rewrite H, app_nil_r. split; [reflexivity | constructor].
Qed.

Lemma issues_http r : P r -> issuesOnly P (http r).
Proof.
  intros Hr env w. exists [r]. split; [| now repeat constructor].
  unfold http. destruct (server env (requests w) r); reflexivity.
Qed.

Lemma issues_bind {A B} (c : M A) (k : A -> M B) :
  issuesOnly P c -> (forall a, issuesOnly P (k a)) -> issuesOnly P (bind c k).
Proof.
  intros Hc Hk env w. destruct (Hc env w) as (n1 & H1 & F1). unfold bind.
  destruct (c env w) as [[a | e |] w1]; cbn [snd] in *; eauto.
  destruct (Hk a env w1) as (n2 & H2 & F2).
  exists (n1 ++ n2). rewrite H2, H1, app_assoc. split; [reflexivity |].
  apply Forall_app. now split.
Qed.

Lemma issues_tryCatch {A} (c : M A) (h : Exn -> M A) :
  issuesOnly P c -> (forall e, issuesOnly P (h e)) -> issuesOnly P (tryCatch c h).
Proof.
  intros Hc Hh env w. destruct (Hc env w) as (n1 & H1 & F1). unfold tryCatch.
  destruct (c env w) as [[a | e |] w1]; cbn [snd] in *; eauto.
  destruct (Hh e env w1) as (n2 & H2 & F2).
  exists (n1 ++ n2). rewrite H2, H1, app_assoc. split; [reflexivity |].
  apply Forall_app. now split.
Qed.

Lemma issues_forEachM {A S} (body : S -> A -> M S) l :
  (forall s x, issuesOnly P (body s x)) -> forall s, issuesOnly P (forEachM body l s).
Proof.
  intros Hb. induction l as [| x l IH]; intros s; simpl.
  - now apply issues_nothing.
  - apply issues_bind; auto.
Qed.

End Issues.

(** Decomposes a computation along its binds, handlers and branches. *)
Ltac issues_with leaf :=
  repeat first
    [ leaf
    | apply issues_nothing; reflexivity
    | assumption
    | apply issues_bind; [| intros ?]
    | apply issues_tryCatch; [| intros ?]
    | apply issues_forEachM; intros ? ?
    | match goal with
      | |- issuesOnly _ (match ?x with _ => _ end) => destruct x
      end ].

Ltac issues := issues_with fail.

Lemma writeStateFile_issues P f : issuesOnly P (writeStateFile f).
Proof.
  apply issues_nothing. intros env w. unfold writeStateFile.
  destruct (writable env w); reflexivity.
Qed.

Lemma importFeedback_issues data : issuesOnly deliverable (importFeedback data).
Proof.
  unfold importFeedback. apply issues_tryCatch; [| intros; issues].
  destruct (validate_cases data) as [Hok | [e He]].
  - unfold lift. rewrite Hok. issues.
    apply issues_http. simpl. now apply validate_acceptable.
  - apply issues_nothing. intros env w. unfold bind, lift. now rewrite He.
Qed.

Lemma fetchCustomer_issues P fuel :
  (forall id, P (GetCustomerProfile id)) ->
  forall id, issuesOnly P (fetchCustomer fuel id).
Proof.
  intros HP. induction fuel as [| fuel IH]; intros id; simpl; [issues |].
  apply issues_tryCatch.
  - apply issues_bind; [apply issues_http, HP | intros d; issues].
  - intros e. destruct (isMoved e) as [r |]; [| issues].
    destruct (location r); [apply IH | issues].
Qed.

Lemma readJob_issues conversations job :
  issuesOnly exportFollowUp (readJob conversations job).
Proof.
  unfold readJob. destruct (isConversationsJob job); [| issues].
  apply issues_bind; [apply issues_http; exact I |].
  intros d. destruct d; issues.
  unfold readFile. destruct (includes _ "conversation") eqn:E; [| issues].
  apply issues_bind; [apply issues_http; exact E | intros d; issues].
Qed.

Lemma fetchConversations_issues P options :
  (forall s e o l, P (GetExportJobs s e o l)) ->
  (forall r, exportFollowUp r -> P r) ->
  issuesOnly P (fetchConversations options).
Proof.
  intros Hlist Hfollow. unfold fetchConversations.
  apply issues_tryCatch; [| intros; issues].
  apply issues_bind; [apply issues_http, Hlist |].
  intros d. destruct d; issues.
  intros env w. destruct (readJob_issues s x env w) as (new & Hnew & Hall).
  exists new. split; [exact Hnew |]. eapply Forall_impl; [| exact Hall]. exact Hfollow.
Qed.

Lemma fetchPages_issues P fuel size s e limit :
  (forall options, issuesOnly P (fetchConversations options)) ->
  forall all page, issuesOnly P (fetchPages fuel size s e limit all page).
Proof.
  intros Hpage. induction fuel as [| fuel IH]; intros all page; simpl; [issues |].
  apply issues_bind; [apply Hpage | intros result].
  destruct (limitReached _ _); [issues |].
  destruct (andb _ _); [apply IH | issues].
Qed.

Lemma deliverable_follow r : exportFollowUp r -> deliverable r.
Proof. destruct r; simpl; tauto. Qed.

Lemma processConversation_issues fuel conversation :
  issuesOnly deliverable (processConversation fuel conversation).
Proof.
  unfold processConversation, _fetchConversationItems, _fetchCustomer,
    fetchConversationItems, modifyMetrics.
  issues_with ltac:(first [ apply importFeedback_issues
                          | apply fetchCustomer_issues; intros; exact I
                          | apply issues_http; exact I ]).
Qed.

Lemma processLine_issues fuel line :
  issuesOnly deliverable (processLine fuel line).
Proof.
  destruct line; cbn [processLine]; [| apply processConversation_issues].
  unfold modifyMetrics. issues.
Qed.

Lemma import_issues fuel size options :
  issuesOnly deliverable (import fuel size options).
Proof.
  unfold import, _validateConnections, GladlyClient.validateConnection,
    EnterpretClient.validateConnection, _determineStartDate, getLastImportTime,
    _fetchConversations, updateLastImportTime, modifyMetrics.
  issues_with ltac:(first [ apply processLine_issues
                          | apply writeStateFile_issues
                          | apply fetchPages_issues; intros;
                            apply fetchConversations_issues;
                            [intros; exact I | exact deliverable_follow]
                          | apply issues_http; exact I ]).
Qed.

(** X11.  Whatever the two services answer, a run only appends to the
    request log, never calls the batch endpoint, and posts a record only
    if the record passes the local validation. *)
Theorem import_posts_only_validated_records :
  forall (fuel size : nat) (options : Options) (env : Env) (w : World),
    exists new,
      requests (snd (import fuel size options env w)) = requests w ++ new /\
      Forall deliverable new.
Proof. intros fuel size options env w. apply import_issues. Qed.

(** X12.  [fetchConversations] first requests the export jobs, with the
    offset [(page - 1) * pageSize] (an integer: minus the page size for
    page 0) and the page size as limit; what it requests after that are
    job details and files whose name contains "conversation", nothing
    else. *)
Theorem fetchConversations_reads_conversation_exports :
  forall (options : FetchOptions) (env : Env) (w : World),
    exists rest,
      requests (snd (fetchConversations options env w))
      = requests w
        ++ GetExportJobs (opt_startDate options) (opt_endDate options)
             ((Z.of_nat (GladlyClient.page options) - 1) * Z.of_nat (pageSize options))%Z
             (pageSize options)
        :: rest /\
      Forall exportFollowUp rest.
Proof.
  intros options env w.
  set (listing := GetExportJobs (opt_startDate options) (opt_endDate options)
                    ((Z.of_nat (GladlyClient.page options) - 1)
                     * Z.of_nat (pageSize options))%Z
                    (pageSize options)).
  unfold fetchConversations. fold listing. unfold tryCatch, bind at 1, http.
  destruct (server env (requests w) listing) as [d | e].
  - set (w1 := {| requests := requests w ++ [listing];
                  stateFile := stateFile w; metrics := metrics w |}).
    assert (Hk : exists rest,
               requests
                 (snd ((match d with
                        | Jobs jobs =>
                            conversations <- forEachM readJob jobs [] ;;
                            ret {| conversations := conversations;
                                   hasMore :=
                                     (pageSize options <=? List.length conversations)%nat |}
                        | _ => ret {| conversations := []; hasMore := false |}
                        end) env w1))
               = requests w1 ++ rest /\ Forall exportFollowUp rest).
    { assert (Hi : issuesOnly exportFollowUp
                     (match d with
                      | Jobs jobs =>
                          conversations <- forEachM readJob jobs [] ;;
                          ret {| conversations := conversations;
                                 hasMore :=
                                   (pageSize options <=? List.length conversations)%nat |}
                      | _ => ret {| conversations := []; hasMore := false |}
                      end)).
      { destruct d; issues. apply readJob_issues. }
      apply Hi. }
    destruct Hk as (rest & Hrest & Hall). exists rest. split; [| exact Hall].
    assert (Hlog : requests w1 ++ rest = requests w ++ listing :: rest)
      by (subst w1; cbn [requests]; now rewrite <- app_assoc).
    rewrite <- Hlog, <- Hrest.
    match type of Hrest with
    | requests (snd ?run) = _ =>
        clear Hrest; generalize run; intros [[p | e |] w2]; reflexivity
    end.
  - exists []. split; [reflexivity | constructor].
Qed.

(** ** Following merged customers *)







(** X14.  With the HTTP client the code builds, the [catch] of
    [fetchCustomer] never sees a 301 that carries a location, so
    [fetchCustomer] never calls itself: whatever the source answers, a
    fetch makes one call, ends (a bound of one call is enough), and gives
    the same result under any larger bound.  A 301 that reaches the
    [catch] has no location, and then [fetchCustomer] throws the TypeError
    of [location.split] instead of its wrapped error. *)
Theorem fetchCustomer_never_calls_itself :
  forall (wire : list Request -> WireRequest -> HttpResult) (env : Env),
    (forall history r, server env history r = client wire history r) ->
    (forall history r e resp,
        server env history r = Rejected e -> isMoved e = Some resp ->
        location resp = None) /\
    (forall fuel id w,
        fetchCustomer (S fuel) id env w = fetchCustomer 1 id env w /\
        fst (fetchCustomer (S fuel) id env w) <> OutOfFuel /\
        snd (fetchCustomer (S fuel) id env w) = afterRequest w (GetCustomerProfile id)) /\
    (forall fuel id w e resp,
        server env (requests w) (GetCustomerProfile id) = Rejected e ->
        isMoved e = Some resp ->
        fst (fetchCustomer (S fuel) id env w)
        = Throw (typeError "Cannot read properties of undefined (reading 'split')")).
Proof.
  intros wire env Henv. split; [| split].
  - intros history r e resp Hs Hm. rewrite Henv in Hs.
    exact (client_never_moved wire history r e resp Hs Hm).
  - intros fuel id w.
    rewrite !(fetchCustomer_over_client wire env _ id w Henv).
    split; [reflexivity |]. split; [| reflexivity]. cbn [fst].
    destruct (server env (requests w) (GetCustomerProfile id)) as [d | e];
      [discriminate |].
    destruct (isMoved e); discriminate.
  - intros fuel id w e resp Hs Hm.
    rewrite (fetchCustomer_over_client wire env _ id w Henv), Hs, Hm. reflexivity.
Qed.

Lemma fetchCustomer_never_calls_itself_witness :
  fst (fetchCustomer 5 "C1" (overWire movedNowhere) (initialWorld Missing))
  = Throw (typeError "Cannot read properties of undefined (reading 'split')").
Proof.
  refine (proj2 (proj2 (fetchCustomer_never_calls_itself (fun _ => movedNowhere)
                          (overWire movedNowhere) (fun _ _ => eq_refl)))
            4 "C1" (initialWorld Missing) _ _ eq_refl eq_refl).
Defined.

(** ** Custom attributes *)

Lemma lookup_assign {V} k k' (v : V) o :
  lookup k (assign k' v o) = if k' =? k then Some v else lookup k o.
Proof.
  induction o as [| [k0 v0] o IH]; simpl.
  - destruct (k' =? k); reflexivity.
  - destruct (String.eqb_spec k0 k') as [-> | Hne]; simpl.
    + destruct (k' =? k); reflexivity.
    + destruct (String.eqb_spec k0 k) as [-> | Hne'].
      * destruct (String.eqb_spec k' k); [congruence | reflexivity].
      * exact IH.
Qed.

Lemma keys_assign {V} k (v : V) o :
  NoDup (map fst o) -> NoDup (map fst (assign k v o)).
Proof.
  induction o as [| [k0 v0] o IH]; simpl; intros Hnd.
  - repeat constructor. auto.
  - inversion Hnd as [| ? ? Hnot Hnd']; subst.
    destruct (String.eqb_spec k0 k) as [-> | Hne]; simpl.
    + now constructor.
    + constructor; [| now apply IH].
      intros Hin. apply Hnot. clear - Hin Hne.
      induction o as [| [k1 v1] o IHo]; simpl in *.
      * destruct Hin as [-> | []]. congruence.
      * destruct (String.eqb_spec k1 k) as [-> | Hne1]; simpl in *; tauto.
Qed.

Lemma addAttribute_kept transformed attr :
  attr_id attr <> Some "__proto__" ->
  addAttribute transformed attr =
  match keptAttribute attr with
  | Some (id, value) => assign id value transformed
  | None => transformed
  end.
Proof.
  unfold addAttribute, keptAttribute, truthy. intros Hid.
  destruct (attr_id attr) as [id |], (attr_value attr) as [v |]; try reflexivity.
  destruct (id =? ""); [reflexivity |]. cbn [negb].
  destruct (String.eqb_spec id "__proto__") as [-> | _]; [now elim Hid | reflexivity].
Qed.

Lemma customAttributes_lookup k attrs :
  Forall (fun a => attr_id a <> Some "__proto__") attrs ->
  forall acc,
    lookup k (fold_left addAttribute attrs acc) =
    match lastKept k attrs with
    | Some v => Some v
    | None => lookup k acc
    end.
Proof.
  induction 1 as [| a attrs Ha _ IH]; intros acc; [reflexivity |].
  cbn [fold_left lastKept]. rewrite IH.
  destruct (lastKept k attrs); [reflexivity |].
  rewrite (addAttribute_kept _ _ Ha).
  destruct (keptAttribute a) as [[id v] |]; [| reflexivity].
  rewrite lookup_assign. destruct (id =? k); reflexivity.
Qed.

Lemma customAttributes_keys attrs : forall acc,
  NoDup (map fst acc) -> NoDup (map fst (fold_left addAttribute attrs acc)).
Proof.
  induction attrs as [| a attrs IH]; intros acc Hnd; [exact Hnd |].
  cbn [fold_left]. apply IH. unfold addAttribute.
  destruct (attr_id a) as [id |]; [| exact Hnd].
  destruct (attr_value a) as [v |]; [| exact Hnd].
  destruct (truthy (Some id)); [| exact Hnd].
  destruct (id =? "__proto__"); [exact Hnd | now apply keys_assign].
Qed.

Lemma lastKept_later k attrs b v' :
  In b attrs -> keptAttribute b = Some (k, v') -> lastKept k attrs <> None.
Proof.
  induction attrs as [| c attrs IH]; [contradiction |].
  intros Hb Hkb. cbn [lastKept]. destruct Hb as [-> | Hb].
  - destruct (lastKept k attrs); [discriminate |].
    rewrite Hkb, String.eqb_refl. discriminate.
  - specialize (IH Hb Hkb). destruct (lastKept k attrs); [discriminate | now elim IH].
Qed.

Lemma lastKept_last k attrs : forall v,
  lastKept k attrs = Some v <->
  exists pre a post,
    attrs = pre ++ a :: post /\ keptAttribute a = Some (k, v) /\
    forall b v', In b post -> keptAttribute b <> Some (k, v').
Proof.
  induction attrs as [| a attrs IH]; intros v; cbn [lastKept].
  - split; [discriminate |]. intros (pre & x & post & H & _). destruct pre; discriminate.
  - split.
    + destruct (lastKept k attrs) as [v0 |] eqn:E.
      * intros [= ->]. destruct (proj1 (IH v) eq_refl) as (pre & x & post & -> & Hk & Hpost).
        exists (a :: pre), x, post. auto.
      * destruct (keptAttribute a) as [[id v1] |] eqn:Ea; [| discriminate].
        destruct (String.eqb_spec id k) as [-> | Hne]; [| discriminate].
        intros [= ->]. exists [], a, attrs. repeat split; auto.
        intros b v' Hb Hkb. now apply (lastKept_later k attrs b v' Hb Hkb).
    + intros (pre & x & post & Heq & Hk & Hpost).
      destruct pre as [| p pre]; cbn in Heq; injection Heq as -> ->.
      * destruct (lastKept k post) as [v0 |] eqn:E.
        -- destruct (proj1 (IH v0) eq_refl) as (pre & y & post' & -> & Hy & _).
           exfalso. apply (Hpost y v0); [apply in_elt | exact Hy].
        -- rewrite Hk, String.eqb_refl. reflexivity.
      * assert (Hrest : lastKept k (pre ++ x :: post) = Some v)
          by (apply IH; eauto 6).
        now rewrite Hrest.
Qed.

(** X15.  For attribute ids other than [__proto__] (which an object
    assignment treats as the prototype accessor, not as a key),
    [_transformCustomAttributes] maps every id to the value of the last
    attribute of the array that carries this id (a truthy one) and a
    defined value; attributes without an id or without a value leave no
    entry, and no id appears twice. *)
Theorem transformCustomAttributes_last_wins :
  forall (attrs : list CustomAttribute),
    Forall (fun a => attr_id a <> Some "__proto__") attrs ->
    let transformed := _transformCustomAttributes (Some attrs) in
    NoDup (map fst transformed) /\
    forall k v,
      lookup k transformed = Some v <->
      exists pre a post,
        attrs = pre ++ a :: post /\ keptAttribute a = Some (k, v) /\
        forall b v', In b post -> keptAttribute b <> Some (k, v').
Proof.
  intros attrs Hids transformed. subst transformed. cbn [_transformCustomAttributes]. split.
  - apply customAttributes_keys. constructor.
  - intros k v. rewrite (customAttributes_lookup k attrs Hids), <- lastKept_last.
    destruct (lastKept k attrs); simpl; split; congruence.
Qed.

Lemma transformCustomAttributes_last_wins_witness :
  lookup "tier"
    (_transformCustomAttributes
       (Some [attribute "tier" "gold"; attribute "region" "eu"; attribute "tier" "silver"]))
  = Some "silver".
Proof.
  apply (transformCustomAttributes_last_wins
           [attribute "tier" "gold"; attribute "region" "eu"; attribute "tier" "silver"]).
  - repeat constructor; discriminate.
  - exists [attribute "tier" "gold"; attribute "region" "eu"],
      (attribute "tier" "silver"), [].
    repeat split. intros b v' [].
Defined.

(** An attribute whose id is [__proto__] leaves no entry. *)
Example transformCustomAttributes_proto :
  _transformCustomAttributes (Some [attribute "__proto__" "x"; attribute "tier" "gold"])
  = [("tier", "gold")].
Proof. reflexivity. Qed.

Example transformCustomAttributes_sample :
  _transformCustomAttributes
    (Some [attribute "tier" "gold"; {| attr_id := Some "x"; attr_value := None |};
           attribute "region" "eu"; attribute "tier" "silver"])
  = [("tier", "silver"); ("region", "eu")].
Proof. reflexivity. Qed.

(** ** Failures of the transformation *)

Lemma renderItem_unrenderable item :
  unrenderable item -> renderItem item = Throw (rangeError "Invalid time value").
Proof.
  intros [Hc Ht]. unfold renderItem. rewrite Ht.
  destruct (content item); [reflexivity | now elim Hc].
Qed.

Lemma renderItem_cases item :
  renderItem item = Ok (blockOf item) \/
  renderItem item = Throw (rangeError "Invalid time value").
Proof.
  unfold blockOf, renderItem. destruct (content item) as [c |]; [| now left].
  destruct (timestamp item) as [t |]; [| now right]. left. cbn.
  destruct (formatContent _ _ c) as [f |]; [| reflexivity].
  destruct (f =? ""); reflexivity.
Qed.

Lemma renderItems_throws l : forall contentParts,
  Exists unrenderable l ->
  renderItems l contentParts = Throw (rangeError "Invalid time value").
Proof.
  induction l as [| item l IH]; intros parts Hex; [inversion Hex |].
  cbn [renderItems]. inversion Hex as [? ? Hbad | ? ? Hlater]; subst.
  - now rewrite (renderItem_unrenderable item Hbad).
  - destruct (renderItem_cases item) as [-> | ->]; [cbn; now apply IH | reflexivity].
Qed.

Lemma renderable_or_not l : renderable (Some l) \/ Exists unrenderable l.
Proof.
  induction l as [| item l [IH | IH]].
  - left. constructor.
  - destruct (content item) as [c |] eqn:Ec.
    + destruct (timestamp item) as [t |] eqn:Et.
      * left. constructor; [now rewrite Et | exact IH].
      * right. left. split; [now rewrite Ec | exact Et].
    + left. constructor; [intros H; now elim H | exact IH].
  - right. now right.
Qed.

(** X16.  [transformConversation] fails in two ways only.  Without a
    status it throws the TypeError of [status.toLowerCase()], whatever
    the items.  With a status it throws the RangeError of [toISOString]
    as soon as one item, of any type, has a content and a timestamp that
    does not parse; otherwise it returns a record.  One of the two cases
    always applies to an item list. *)
Theorem transformConversation_fails_in_two_ways :
  forall (conversation : Conversation) (items : option (list Item))
         (customer : option Customer),
    (conv_status conversation = None ->
     transformConversation conversation items customer
     = Throw (typeError "Cannot read properties of undefined (reading 'toLowerCase')")) /\
    (forall status l,
        conv_status conversation = Some status -> items = Some l ->
        Exists unrenderable l ->
        transformConversation conversation items customer
        = Throw (rangeError "Invalid time value")) /\
    (forall status,
        conv_status conversation = Some status -> renderable items ->
        exists record, transformConversation conversation items customer = Ok record) /\
    (forall l, renderable (Some l) \/ Exists unrenderable l).
Proof.
  intros conversation items customer. split; [| split; [| split]].
  - intros Hs. unfold transformConversation. now rewrite Hs.
  - intros status l Hs -> Hbad. unfold transformConversation. rewrite Hs.
    cbn [obind]. unfold _processConversationItems.
    destruct l as [| x l']; [inversion Hbad |].
    rewrite renderItems_throws; [reflexivity |].
    apply Exists_exists in Hbad. destruct Hbad as (bad & Hin & Hbad).
    apply Exists_exists. exists bad. split; [| exact Hbad].
    eapply Permutation_in; [symmetry; apply sortItems_perm | exact Hin].
  - intros status Hs Hv. now apply (transformConversation_returns _ _ _ status).
  - exact renderable_or_not.
Qed.

(** X17.  The id of the record is the conversation id behind a fixed
    prefix: for conversations that have an id, two returned records have
    the same id exactly when the conversations have the same id, whatever
    their items and customers. *)
Theorem feedback_id_follows_conversation_id :
  forall (c1 c2 : Conversation) (items1 items2 : option (list Item))
         (customer1 customer2 : option Customer) (r1 r2 : FeedbackRecord)
         (id1 id2 : string),
    conv_id c1 = Some id1 ->
    conv_id c2 = Some id2 ->
    transformConversation c1 items1 customer1 = Ok r1 ->
    transformConversation c2 items2 customer2 = Ok r2 ->
    fr_id r1 = Some ("gladly_" ++ id1)%string /\
    (fr_id r1 = fr_id r2 <-> id1 = id2).
Proof.
  intros c1 c2 items1 items2 customer1 customer2 r1 r2 id1 id2 H1 H2 Ht1 Ht2.
  destruct (transformConversation_fields _ _ _ _ Ht1) as (Hid1 & _).
  destruct (transformConversation_fields _ _ _ _ Ht2) as (Hid2 & _).
  rewrite Hid1, Hid2, H1, H2. cbn [template]. split; [reflexivity |].
  split; [| now intros ->]. intros [= H]. exact H.
Qed.

Lemma feedback_id_follows_conversation_id_witness :
  Some "gladly_C1" = Some ("gladly_" ++ "C1")%string /\
  (Some "gladly_C1" = Some "gladly_C1" <-> "C1" = "C1").
Proof.
  exact (feedback_id_follows_conversation_id sampleConversation sampleConversation
           (Some []) (Some [chat 1]) None (Some sampleCustomer) _ _ "C1" "C1"
           eq_refl eq_refl eq_refl eq_refl).
Defined.

(** ** Channel inference and the order of the items *)

Lemma channels_perm items items' :
  Permutation items items' -> Permutation (channels items) (channels items').
Proof. intros H. unfold channels. now apply Permutation_flat_map. Qed.

Lemma primaryChannel_max items :
  channels items <> [] ->
  forall c, occurrences c (channels items)
            <= occurrences (_determinePrimaryChannel (Some items)) (channels items).
Proof.
  intros Hne.
  set (chans := channels items) in *.
  assert (Hrun : _determinePrimaryChannel (Some items) =
                 fst (fold_left pickStep
                        (tabulate (fun k => occurrences k chans) (seenOrder chans))
                        ("other", 0))).
  { subst chans. unfold _determinePrimaryChannel.
    destruct items as [| i r]; [now elim Hne |].
    now rewrite countItems_channels, channelCounts_tabulate. }
  rewrite Hrun.
  pose proof (pick_first_max
                (tabulate (fun k => occurrences k chans) (seenOrder chans))
                "other" 0) as Hpick.
  destruct (fold_left pickStep _ ("other", 0)) as [r m]. cbn [fst].
  assert (Hentry : forall c, In c chans ->
                     In (c, occurrences c chans)
                        (tabulate (fun k => occurrences k chans) (seenOrder chans))).
  { intros c Hc. apply seenOrder_In in Hc.
    apply (in_map (fun k => (k, occurrences k chans))) in Hc. exact Hc. }
  assert (Hall : forall c, In c chans -> occurrences c chans <= m).
  { intros c Hc. specialize (Hentry c Hc).
    destruct Hpick as [[Heq Hle] | (E1 & E2 & Hsplit & _ & Hlt & Hle)].
    - rewrite Forall_forall in Hle. apply Hle in Hentry. cbn in Hentry.
      inversion Heq. lia.
    - rewrite Hsplit in Hentry. rewrite Forall_forall in Hlt, Hle.
      apply in_app_or in Hentry. destruct Hentry as [H | [H | H]].
      + apply Hlt in H. cbn in H. lia.
      + inversion H. lia.
      + apply Hle in H. exact H. }
  assert (Hm : m = occurrences r chans).
  { destruct Hpick as [[Heq Hle] | (E1 & E2 & Hsplit & _ & _ & _)].
    - exfalso. destruct chans as [| c0 rest] eqn:Ec; [now elim Hne |].
      assert (Hin : In c0 (c0 :: rest)) by now left.
      specialize (Hall c0 Hin). inversion Heq; subst.
      apply occurrences_pos in Hin. lia.
    - assert (Hin : In (r, m) (tabulate (fun k => occurrences k chans) (seenOrder chans)))
        by (rewrite Hsplit; apply in_elt).
      unfold tabulate in Hin. apply in_map_iff in Hin.
      destruct Hin as (k & Hk & _). now inversion Hk. }
  intros c. destruct (in_dec string_dec c chans) as [Hin | Hnot].
  - rewrite <- Hm. now apply Hall.
  - assert (occurrences c chans = 0); [| lia].
    destruct (occurrences c chans) eqn:E0; [reflexivity |].
    exfalso. apply Hnot, occurrences_pos. lia.
Qed.

Lemma unique_max_wins items c :
  (forall c', c' <> c ->
     occurrences c' (channels items) < occurrences c (channels items)) ->
  _determinePrimaryChannel (Some items) = c.
Proof.
  intros Hmax.
  assert (Hne : channels items <> []).
  { intros Hnil. rewrite Hnil in Hmax.
    specialize (Hmax (String "x" c)). unfold occurrences in Hmax. cbn in Hmax.
    assert (Hdiff : String "x" c <> c); [| specialize (Hmax Hdiff); lia].
    clear. intros H. apply (f_equal String.length) in H. cbn in H. lia. }
  destruct (string_dec (_determinePrimaryChannel (Some items)) c) as [-> | Hother];
    [reflexivity |].
  pose proof (primaryChannel_max items Hne c) as Hle.
  specialize (Hmax _ Hother). lia.
Qed.

(** X18.  When one channel has strictly more items than every other, it
    is the primary channel, in whatever order the items come. *)
Theorem determinePrimaryChannel_order_independent :
  forall (items items' : list Item) (c : string),
    Permutation items items' ->
    (forall c', c' <> c ->
       occurrences c' (channels items) < occurrences c (channels items)) ->
    _determinePrimaryChannel (Some items) = c /\
    _determinePrimaryChannel (Some items') = c.
Proof.
  intros items items' c Hperm Hmax. split; [now apply unique_max_wins |].
  apply unique_max_wins. intros c' Hc'.
  pose proof (channels_perm _ _ Hperm) as Hp.
  pose proof (proj1 (Permutation_count_occ string_dec _ _) Hp) as Hcount.
  unfold occurrences in *. rewrite <- !Hcount. now apply Hmax.
Qed.

Lemma determinePrimaryChannel_order_independent_witness :
  _determinePrimaryChannel (Some [email 1; chat 2; chat 3]) = "chat" /\
  _determinePrimaryChannel (Some [chat 2; email 1; chat 3]) = "chat".
Proof.
  apply determinePrimaryChannel_order_independent.
  - apply perm_swap.
  - intros c' Hc'.
    change (channels [email 1; chat 2; chat 3]) with ["email"; "chat"; "chat"].
    cbv beta iota zeta delta [occurrences count_occ].
    repeat match goal with
           | |- context [string_dec ?a ?b] => destruct (string_dec a b)
           end; cbv zeta; try congruence; try lia.
Defined.

(** ** Items that render nothing *)

Lemma blocks_filter_speaks l : blocks (filter speaks l) = blocks l.
Proof.
  induction l as [| x l IH]; [reflexivity |].
  cbn [filter]. unfold speaks at 1. unfold blocks in *. cbn [flat_map].
  destruct (blockOf x) eqn:E.
  - exact IH.
  - cbn [flat_map]. rewrite E, IH. reflexivity.
Qed.

Lemma Forall_kept {A} (P : A -> Prop) (p : A -> bool) l :
  Forall P l -> Forall P (filter p l).
Proof.
  rewrite !Forall_forall. intros H x Hx. apply filter_In in Hx. now apply H.
Qed.

Lemma insertItem_front x l :
  isValid (timestamp x) = true -> validTimestamps l ->
  Forall (notLater x) l -> insertItem x l = x :: l.
Proof.
  intros Hx Hl Hall. destruct l as [| y l]; [reflexivity |].
  inversion Hl; subst. inversion Hall as [| ? ? Hxy _]; subst.
  cbn [insertItem]. rewrite comesAfter_valid by assumption.
  unfold notLater in Hxy. destruct (Z.ltb_spec (timeOf y) (timeOf x)); [lia | reflexivity].
Qed.

Lemma insertItem_filter (p : Item -> bool) x l :
  isValid (timestamp x) = true -> validTimestamps l -> StronglySorted notLater l ->
  filter p (insertItem x l) =
  if p x then insertItem x (filter p l) else filter p l.
Proof.
  intros Hx Hl Hs. induction Hs as [| y l Hs IH Hy].
  - cbn. destruct (p x); reflexivity.
  - inversion Hl as [| ? ? Hvy Hvl]; subst.
    cbn [insertItem]. rewrite (comesAfter_valid x y Hx Hvy).
    destruct (Z.ltb_spec (timeOf y) (timeOf x)) as [Hlt | Hge].
    + cbn [filter]. rewrite (IH Hvl).
      destruct (p y) eqn:Ey; destruct (p x) eqn:Ex; try reflexivity.
      cbn [insertItem]. rewrite (comesAfter_valid x y Hx Hvy).
      destruct (Z.ltb_spec (timeOf y) (timeOf x)); [reflexivity | lia].
    + change (filter p (x :: y :: l))
        with (if p x then x :: filter p (y :: l) else filter p (y :: l)).
      destruct (p x) eqn:Ex; [| reflexivity].
      symmetry. apply insertItem_front; [assumption | |].
      * apply Forall_kept. exact Hl.
      * apply Forall_kept. constructor; [exact Hge |].
        rewrite Forall_forall in *. intros z Hz. specialize (Hy z Hz).
        unfold notLater in *. lia.
Qed.

Lemma sortItems_filter (p : Item -> bool) l :
  validTimestamps l -> sortItems (filter p l) = filter p (sortItems l).
Proof.
  induction l as [| x l IH]; intros Hv; [reflexivity |].
  inversion Hv as [| ? ? Hx Hl]; subst. cbn [sortItems fold_right filter].
  fold (sortItems l).
  rewrite insertItem_filter;
    [| assumption | now apply validTimestamps_sort | now apply sortItems_sorted].
  destruct (p x); [| now apply IH].
  cbn [fold_right]. fold (sortItems (filter p l)). now rewrite IH.
Qed.

(** X19.  Items that render no block (no content, a type the switch does
    not know, a topic change with neither list) never change the content:
    with valid timestamps, dropping them from the item list gives the
    same content. *)
Theorem silent_items_leave_no_trace :
  forall items : list Item,
    validTimestamps items ->
    _processConversationItems (Some (filter speaks items))
    = _processConversationItems (Some items) /\
    (forall item, In item items -> content item = None -> speaks item = false).
Proof.
  intros items Hv. split.
  - assert (Hv' : validTimestamps (filter speaks items)) by now apply Forall_kept.
    rewrite !processConversationItems_blocks by now apply validTimestamps_renderable.
    rewrite sortItems_filter by assumption.
    now rewrite blocks_filter_speaks.
  - intros item _ Hc. unfold speaks, blockOf, renderItem. now rewrite Hc.
Qed.

Lemma silent_items_leave_no_trace_witness :
  _processConversationItems (Some (filter speaks [chat 2000; silentItem 1500; chat 1000]))
  = _processConversationItems (Some [chat 2000; silentItem 1500; chat 1000]).
Proof.
  apply (silent_items_leave_no_trace [chat 2000; silentItem 1500; chat 1000]).
  repeat constructor.
Defined.

(** ** Configuration *)

Lemma dropLast_slash s : dropLast (s ++ "/")%string = s.
Proof.
  induction s as [| c s IH]; [reflexivity |].
  cbn [append dropLast]. rewrite IH. destruct s; reflexivity.
Qed.

Lemma endsWithSlash_slash s : endsWithSlash (s ++ "/")%string = true.
Proof.
  induction s as [| c s IH]; [reflexivity |].
  cbn [append endsWithSlash]. destruct s; [reflexivity | exact IH].
Qed.

(** X20.  [normalizeUrl] removes one trailing slash and nothing else: a
    url that ends with a slash loses exactly that slash (so a url ending
    with two slashes still ends with one), and any other url is returned
    as it is. *)
Theorem normalizeUrl_drops_one_slash :
  (forall s, normalizeUrl (s ++ "/")%string = s) /\
  (forall s, endsWithSlash s = false -> normalizeUrl s = s) /\
  (forall s, normalizeUrl (s ++ "//")%string = (s ++ "/")%string).
Proof.
  assert (H1 : forall s, normalizeUrl (s ++ "/")%string = s).
  { intros s. unfold normalizeUrl.
    rewrite endsWithSlash_slash, dropLast_slash.
    destruct s; reflexivity. }
  split; [exact H1 |]. split.
  - intros s Hs. unfold normalizeUrl. rewrite Hs. destruct (s =? ""); reflexivity.
  - intros s. replace (s ++ "//")%string with ((s ++ "/") ++ "/")%string; [apply H1 |].
    induction s as [| c s IH]; [reflexivity |]. cbn [append]. now rewrite IH.
Qed.


Lemma validateConfig_cases config :
  (credentialsComplete config = true /\ exists c, validateConfig config = Ok c) \/
  (credentialsComplete config = false /\ exists e, validateConfig config = Throw e).
Proof.
  unfold credentialsComplete, validateConfig.
  destruct (truthy (username (gladly config)));
    destruct (truthy (apiToken (gladly config)));
    destruct (truthy (apiKey (enterpret config))); cbn; eauto.
Qed.







(** The merged sample, key by key: strings and fractions in range are
    kept as they are, [null] is kept as a retry delay (its number is 0),
    and one slash of the url goes. *)
Example loadConfig_full_file :
  loadConfig sampleEnvironment true (Parsed fullFile) =
  Ok {| gladly := {| apiUrl := "https://eu.gladly.com/";
                     username := Some "import@acme.com";
                     apiToken := Some "file-token" |};
        enterpret := {| enterpretApiUrl := "https://enterpret.test";
                        apiKey := Some "file-key" |};
        stateFilePath := "/var/state.json";
        batchSize := Str "50" (Finite 50 1);
        maxRetries := Num (Finite 3 2);
        retryDelay := Null |}.
Proof. reflexivity. Qed.

(** A partial file: the environment fills in what the file leaves out. *)
Example loadConfig_partial_file :
  loadConfig sampleEnvironment true (Parsed sampleFile) =
  Ok {| gladly := {| apiUrl := "https://acme.gladly.com";
                     username := Some "import@acme.com";
                     apiToken := Some "token" |};
        enterpret := {| enterpretApiUrl := "https://api.enterpret.com";
                        apiKey := Some "key" |};
        stateFilePath := "./import-state.json";
        batchSize := int 50;
        maxRetries := int 3;
        retryDelay := int 5000 |}.
Proof. reflexivity. Qed.

(** X23.  Whenever the config path gives no usable config (no path, no
    file, a file that does not parse, or a file whose merge lacks a
    credential), [loadConfig] is [validateConfig] on the environment's
    defaults alone: the file is dropped as a whole, its valid keys
    included, and an error, if any, is the one of the environment. *)
Theorem loadConfig_falls_back_on_environment :
  forall (env : Environment) (configPath : bool) (file : ConfigFile),
    unusable env configPath file ->
    loadConfig env configPath file = validateConfig (defaultConfig env).
Proof.
  intros env configPath file H. unfold loadConfig. cbv zeta.
  destruct H as [-> | [-> | [-> | [f [e [-> Hthrow]]]]]].
  - reflexivity.
  - destruct configPath; [| reflexivity].
    destruct (validateConfig (defaultConfig env)); reflexivity.
  - destruct configPath; reflexivity.
  - destruct configPath; [| reflexivity]. rewrite Hthrow. reflexivity.
Qed.

Lemma loadConfig_falls_back_on_environment_witness :
  unusable sampleEnvironment true (Parsed blankingFile) /\
  exists c, loadConfig sampleEnvironment true (Parsed blankingFile) = Ok c /\
            username (gladly c) = Some "ops@acme.com" /\
            batchSize c = int 100.
Proof.
  assert (H : unusable sampleEnvironment true (Parsed blankingFile)).
  { right. right. right. eexists. eexists. split; [reflexivity |].
    vm_compute. reflexivity. }
  split; [exact H |].
  rewrite (loadConfig_falls_back_on_environment _ _ _ H).
  eexists. split; [vm_compute; reflexivity |]. split; reflexivity.
Defined.

(** X24.  With the three credentials in the environment [loadConfig]
    returns a config whatever is at the config path, and the config it
    returns has the three credentials; so [loadConfig] throws only when
    the environment lacks one. *)
Theorem loadConfig_succeeds_on_complete_environment :
  forall (env : Environment),
    credentialsComplete (defaultConfig env) = true ->
    forall (configPath : bool) (file : ConfigFile),
    exists config,
      loadConfig env configPath file = Ok config /\
      credentialsComplete config = true.
Proof.
  intros env Henv configPath file.
  destruct (validateConfig_cases (defaultConfig env)) as [[_ [d Hd]] | [Hc _]];
    [| congruence].
  assert (Hvalid : forall c c', validateConfig c = Ok c' -> credentialsComplete c' = true).
  { intros c c' Hc. unfold validateConfig in Hc. unfold credentialsComplete.
    destruct (truthy (username (gladly c))) eqn:Hu; [| discriminate].
    destruct (truthy (apiToken (gladly c))) eqn:Ht; [| discriminate].
    destruct (truthy (apiKey (enterpret c))) eqn:Hk; [| discriminate].
    cbn in Hc. injection Hc as <-. cbn. now rewrite Hu, Ht, Hk. }
  unfold loadConfig. cbv zeta. rewrite Hd.
  destruct configPath; [| eauto].
  destruct file as [| | f]; cbn; eauto.
  destruct (validateConfig (mergedConfig (defaultConfig env) f)) as [m | e |] eqn:Hm;
    cbn; eauto.
Qed.

Lemma loadConfig_succeeds_on_complete_environment_witness :
  exists config, loadConfig sampleEnvironment true BadFile = Ok config /\
                 credentialsComplete config = true.
Proof.
  apply (loadConfig_succeeds_on_complete_environment sampleEnvironment).
  vm_compute. reflexivity.
Defined.

(** ** Runs that do not read the state *)

Lemma ignores_pure {A} (r : Outcome A) : ignoresState (lift r).
Proof. intros env w1 w2 _ H. split; [reflexivity | exact H]. Qed.

Lemma ignores_ret {A} (a : A) : ignoresState (ret a).
Proof. exact (ignores_pure (Ok a)). Qed.

Lemma ignores_throw {A} e : ignoresState (@throw A e).
Proof. exact (ignores_pure (Throw e)). Qed.

Lemma ignores_outOfFuel {A} : ignoresState (@outOfFuel A).
Proof. exact (ignores_pure OutOfFuel). Qed.

Lemma ignores_http r : ignoresState (http r).
Proof.
  intros env w1 w2 _ [Hr Hm]. unfold http. rewrite Hr.
  destruct (server env (requests w2) r); cbn; (split; [reflexivity |]);
    split; cbn; congruence.
Qed.

Lemma ignores_now : ignoresState now.
Proof.
  intros env w1 w2 Henv H. unfold now. cbn.
  destruct (Henv w1 w2 H) as [-> _]. split; [reflexivity | exact H].
Qed.

Lemma ignores_getMetrics : ignoresState getMetrics.
Proof.
  intros env w1 w2 _ H. unfold getMetrics. cbn.
  destruct H as [Hr Hm]. rewrite Hm. split; [reflexivity | now split].
Qed.

Lemma ignores_setMetrics m : ignoresState (setMetrics m).
Proof.
  intros env w1 w2 _ [Hr Hm]. unfold setMetrics. cbn.
  split; [reflexivity |]. split; cbn; congruence.
Qed.

Lemma ignores_writeStateFile f : ignoresState (writeStateFile f).
Proof.
  intros env w1 w2 Henv H. unfold writeStateFile.
  destruct (Henv w1 w2 H) as [_ ->]. destruct H as [Hr Hm].
  destruct (writable env w2); cbn; (split; [reflexivity |]); split; cbn; congruence.
Qed.

Lemma ignores_bind {A B} (c : M A) (k : A -> M B) :
  ignoresState c -> (forall a, ignoresState (k a)) -> ignoresState (bind c k).
Proof.
  intros Hc Hk env w1 w2 Henv H. unfold bind.
  destruct (Hc env w1 w2 Henv H) as [Ho Hw].
  destruct (c env w1) as [o1 w1'], (c env w2) as [o2 w2']. cbn in Ho, Hw. subst o2.
  destruct o1 as [a | e |]; [now apply Hk | |]; (split; [reflexivity | exact Hw]).
Qed.

Lemma ignores_tryCatch {A} (c : M A) (h : Exn -> M A) :
  ignoresState c -> (forall e, ignoresState (h e)) -> ignoresState (tryCatch c h).
Proof.
  intros Hc Hh env w1 w2 Henv H. unfold tryCatch.
  destruct (Hc env w1 w2 Henv H) as [Ho Hw].
  destruct (c env w1) as [o1 w1'], (c env w2) as [o2 w2']. cbn in Ho, Hw. subst o2.
  destruct o1 as [a | e |]; [| now apply Hh |]; (split; [reflexivity | exact Hw]).
Qed.

Lemma ignores_forEachM {A S} (body : S -> A -> M S) l :
  (forall s x, ignoresState (body s x)) -> forall s, ignoresState (forEachM body l s).
Proof.
  intros Hb. induction l as [| x l IH]; intros s; simpl.
  - apply ignores_ret.
  - apply ignores_bind; auto.
Qed.

(** Decomposes a computation along its binds, handlers and branches. *)
Ltac ignores_with leaf :=
  repeat first
    [ leaf
    | apply ignores_ret | apply ignores_throw | apply ignores_outOfFuel
    | apply ignores_pure | apply ignores_http | apply ignores_now
    | apply ignores_getMetrics | apply ignores_setMetrics
    | apply ignores_writeStateFile
    | assumption
    | apply ignores_bind; [| intros ?]
    | apply ignores_tryCatch; [| intros ?]
    | apply ignores_forEachM; intros ? ?
    | match goal with
      | |- ignoresState (match ?x with _ => _ end) => destruct x
      end ].

Lemma fetchCustomer_ignores fuel :
  forall id, ignoresState (fetchCustomer fuel id).
Proof.
  induction fuel as [| fuel IH]; intros id; simpl; [ignores_with fail |].
  apply ignores_tryCatch; [ignores_with fail |].
  intros e. destruct (isMoved e) as [r |]; [| ignores_with fail].
  destruct (location r); [apply IH | ignores_with fail].
Qed.

Lemma fetchConversations_ignores options : ignoresState (fetchConversations options).
Proof.
  unfold fetchConversations, readJob, readFile. ignores_with fail.
Qed.

Lemma fetchPages_ignores fuel size s e limit :
  forall all page, ignoresState (fetchPages fuel size s e limit all page).
Proof.
  induction fuel as [| fuel IH]; intros all page; simpl; [ignores_with fail |].
  apply ignores_bind; [apply fetchConversations_ignores | intros result].
  destruct (limitReached _ _); [ignores_with fail |].
  destruct (andb _ _); [apply IH | ignores_with fail].
Qed.

Lemma processConversation_ignores fuel conversation :
  ignoresState (processConversation fuel conversation).
Proof.
  unfold processConversation, _fetchConversationItems, _fetchCustomer,
    fetchConversationItems, importFeedback, modifyMetrics.
  ignores_with ltac:(apply fetchCustomer_ignores).
Qed.

Lemma processLine_ignores fuel line : ignoresState (processLine fuel line).
Proof.
  destruct line; cbn [processLine]; [| apply processConversation_ignores].
  unfold modifyMetrics. ignores_with fail.
Qed.

(** X25.  A run that is given a start date, or is a full import, never
    reads the stored state: started from two worlds that differ only in
    the state file, it returns the same result, issues the same requests
    and leaves the same metrics (the clock and the file system being
    independent of the state file). *)
Theorem import_with_start_ignores_state :
  forall (fuel size : nat) (options : Options),
    startGiven options ->
    ignoresState (import fuel size options).
Proof.
  intros fuel size options Hstart.
  assert (Hdate : ignoresState
                    (_determineStartDate (isFullImport options) (startDate options))).
  { unfold _determineStartDate. unfold startGiven in Hstart.
    destruct (startDate options) as [d |]; [apply ignores_ret |].
    destruct Hstart as [H | ->]; [congruence | apply ignores_ret]. }
  unfold import, _validateConnections, GladlyClient.validateConnection,
    EnterpretClient.validateConnection, _fetchConversations, updateLastImportTime,
    modifyMetrics.
  ignores_with ltac:(first [ apply processLine_ignores
                           | apply fetchPages_ignores
                           | exact Hdate ]).
Qed.

Lemma import_with_start_ignores_state_witness :
  fst (import 5 100 oldWindow samePageSource (initialWorld Missing))
  = fst (import 5 100 oldWindow samePageSource
           (initialWorld (Stored (Some (ValidDate 2000)) None))).
Proof.
  refine (proj1 (import_with_start_ignores_state 5 100 oldWindow _ samePageSource
                   (initialWorld Missing)
                   (initialWorld (Stored (Some (ValidDate 2000)) None)) _ _)).
  - left. discriminate.
  - intros w1 w2 _. split; reflexivity.
  - split; reflexivity.
Defined.

(** The run that relies on the state does read it: the stored time becomes
    the start of the window asked from the source. *)
Example incremental_run_reads_state :
  requests (snd (import 5 100 incremental (quietSource 5000)
                   (initialWorld (Stored (Some (ValidDate 2000)) None))))
  <> requests (snd (import 5 100 incremental (quietSource 5000) (initialWorld Missing))).
Proof. vm_compute. discriminate. Qed.
